(** * Analysis Session Engine of the squash dashboard

  A shallow embedding of the TypeScript/React front end:

  - [JS]: the pieces of the JavaScript runtime the components rely on
    (strings as UTF-16 code units, [String.prototype.trim], nullish
    coalescing, the stable [Array.prototype.sort]);
  - [Ranking]: [OpportunitiesTab] of
    components/analysis/opportunities-tab.tsx (sort state, comparator);
  - [Choreographer]: [AnalysisLoading] of
    components/analysis/analysis-loading.tsx (the timer-driven stage index);
  - [Api], [History]: the values exchanged with the pipeline, the
    history entries [handleRun] builds, and the write to the history,
    which can fail;
  - [Controller]: [AnalysisPage] of app/analysis/page.tsx together with
    [QueryInput] of components/analysis/query-input.tsx (the run lifecycle).

  Finite JavaScript numbers are modelled by exact rationals [Q]: every
  finite double is a rational and the sign of a difference of two finite
  doubles is the sign of the exact difference, which is all a sort
  comparator observes.  What a comparator returns is a [JS.number], a
  finite value or [NaN]; the infinities are outside the model. *)

From Stdlib Require Import List Bool Arith ZArith NArith QArith Lia.
From Stdlib Require Import Strings.String Strings.Ascii.
From Stdlib Require Import Sorting.Sorted Sorting.Permutation.
Import ListNotations.

Close Scope Q_scope.

(* ================================================================== *)
(** ** The JavaScript runtime, as far as the components use it *)
(* ================================================================== *)

Module JS.

(** A JavaScript string is a sequence of UTF-16 code units. *)
Definition jsstring := list N.

(** String literals of the source, all of them ASCII. *)
Definition js (s : string) : jsstring :=
  map N_of_ascii (list_ascii_of_string s).

Definition jsstring_eqb (a b : jsstring) : bool :=
  if list_eq_dec N.eq_dec a b then true else false.

(** ECMAScript WhiteSpace and LineTerminator code points, the ones
    [trim] strips: TAB, LF, VT, FF, CR, SP, NBSP, U+1680, U+2000..U+200A,
    LS, PS, U+202F, U+205F, U+3000 and the BOM U+FEFF. *)
Definition is_white_space (c : N) : bool :=
  ((9 <=? c) && (c <=? 13)
   || (c =? 32) || (c =? 160) || (c =? 5760)
   || ((8192 <=? c) && (c <=? 8202))
   || (c =? 8232) || (c =? 8233) || (c =? 8239) || (c =? 8287)
   || (c =? 12288) || (c =? 65279))%N.

Fixpoint trimStart (s : jsstring) : jsstring :=
  match s with
  | c :: s' => if is_white_space c then trimStart s' else s
  | [] => []
  end.

Definition trimEnd (s : jsstring) : jsstring := rev (trimStart (rev s)).

(** [String.prototype.trim]. *)
Definition trim (s : jsstring) : jsstring := trimEnd (trimStart s).

(** Truthiness of a string: only the empty string is falsy. *)
Definition truthy (s : jsstring) : bool :=
  match s with [] => false | _ :: _ => true end.

(** [a ?? d] on a possibly absent value. *)
Definition nullish {A : Type} (a : option A) (d : A) : A :=
  match a with Some v => v | None => d end.

(** What a comparator returns to [sort]: a finite number or [NaN]. *)
Inductive number := Finite (q : Q) | NaN.

(** Subtraction and unary minus, which give [NaN] on [NaN]. *)
Definition sub (a b : number) : number :=
  match a, b with
  | Finite x, Finite y => Finite (x - y)%Q
  | _, _ => NaN
  end.

Definition neg (a : number) : number :=
  match a with
  | Finite x => Finite (- x)%Q
  | NaN => NaN
  end.

(** How [sort] reads the answer for a pair: ECMAScript takes [NaN] as +0,
    and an answer that is not positive leaves the pair in its order. *)
Definition keeps_order (v : number) : bool :=
  match v with
  | Finite q => Qle_bool q 0%Q
  | NaN => true
  end.

(** [Array.prototype.sort(comparefn)].  ECMAScript requires the sort to
    be stable, and for a consistent comparator the stable result is
    unique; it is computed here by insertion from the right: an element
    goes in front of the first later element it does not compare greater
    than, so elements that compare equal keep their order.  For a
    comparator that is not consistent (one that answers [NaN] for some
    pairs and an order for others) ECMAScript leaves the result to the
    implementation: the function is then one admissible outcome, of
    which only being a permutation of the input is relied on. *)
Section Sort.
Variable A : Type.
Variable comparefn : A -> A -> number.

Fixpoint insert (x : A) (l : list A) : list A :=
  match l with
  | [] => [x]
  | y :: l' =>
      if keeps_order (comparefn x y) then x :: l else y :: insert x l'
  end.

Definition sort (l : list A) : list A := fold_right insert [] l.
End Sort.

Arguments insert {A} comparefn x l.
Arguments sort {A} comparefn l.

(** [prev.includes(x)], [prev.filter(f => f !== x)] on string arrays. *)
Definition includes (l : list jsstring) (x : jsstring) : bool :=
  existsb (jsstring_eqb x) l.

End JS.

Notation "a ?? d" := (JS.nullish a d) (at level 45, left associativity).

(* ================================================================== *)
(** ** Opportunity ranking: [OpportunitiesTab] *)
(* ================================================================== *)

Module Ranking.
Import JS.
Local Open Scope Q_scope.

(** [ScoredFeature], with the fields the table reads. *)
Record ScoredFeature := {
  name : jsstring;
  description : jsstring;
  confidence : jsstring;
  rice_score : option Q;
  category : option jsstring
}.

(** [type SortField = "name" | "rice_score" | "confidence"]. *)
Inductive SortField := SortName | SortRiceScore | SortConfidence.

Definition SortField_eqb (a b : SortField) : bool :=
  match a, b with
  | SortName, SortName | SortRiceScore, SortRiceScore
  | SortConfidence, SortConfidence => true
  | _, _ => false
  end.

(** The component's two state cells. *)
Record SortState := { sortField : SortField; sortAsc : bool }.

(** [useState<SortField>("rice_score")], [useState(false)]. *)
Definition initial : SortState :=
  {| sortField := SortRiceScore; sortAsc := false |}.

Definition toggleSort (field : SortField) (s : SortState) : SortState :=
  if SortField_eqb (sortField s) field
  then {| sortField := sortField s; sortAsc := negb (sortAsc s) |}
  else {| sortField := field; sortAsc := false |}.

(** [const order: Record<string, number> = { high: 3, medium: 2, low: 1 }]:
    the own properties of the object literal. *)
Definition order : list (jsstring * Q) :=
  [(js "high", 3); (js "medium", 2); (js "low", 1)].

(** The own property [k] of [o], if it has one. *)
Fixpoint get (o : list (jsstring * Q)) (k : jsstring) : option Q :=
  match o with
  | [] => None
  | (k', v) :: o' => if jsstring_eqb k k' then Some v else get o' k
  end.

(** The names of the members an object literal inherits from
    [Object.prototype]: functions, and under [__proto__] the prototype
    object itself. *)
Definition Object_prototype : list jsstring :=
  [js "constructor"; js "toString"; js "toLocaleString"; js "valueOf";
   js "hasOwnProperty"; js "isPrototypeOf"; js "propertyIsEnumerable";
   js "__proto__"; js "__defineGetter__"; js "__defineSetter__";
   js "__lookupGetter__"; js "__lookupSetter__"].

(** What reading a property of [order] yields: a number, an inherited
    member, or [undefined]. *)
Inductive value := Number (q : Q) | Member | Undefined.

(** [order[k]]: the own property, else the member found along the
    prototype chain, else [undefined]. *)
Definition read (k : jsstring) : value :=
  match get order k with
  | Some v => Number v
  | None => if includes Object_prototype k then Member else Undefined
  end.

(** [v ?? 0]: only [undefined] (or [null]) gives way to 0. *)
Definition or_zero (v : value) : value :=
  match v with
  | Undefined => Number 0
  | _ => v
  end.

(** [ToNumber], which the subtraction applies to its operands: [NaN] for
    a function and for an object such as [Object.prototype]. *)
Definition ToNumber (v : value) : number :=
  match v with
  | Number q => Finite q
  | Member | Undefined => NaN
  end.

(** The confidences that name no inherited member. *)
Definition plain (k : jsstring) : bool := negb (includes Object_prototype k).

Section Comparator.
(** [String.prototype.localeCompare] depends on the host's collation;
    the comparator is parametric in it. *)
Variable localeCompare : jsstring -> jsstring -> Q.

(** The arrow function handed to [sort]. *)
Definition comparefn (s : SortState) (a b : ScoredFeature) : number :=
  let cmp :=
    match sortField s with
    | SortName => Finite (localeCompare (name a) (name b))
    | SortRiceScore => Finite ((rice_score a ?? 0) - (rice_score b ?? 0))
    | SortConfidence =>
        sub (ToNumber (or_zero (read (confidence a))))
            (ToNumber (or_zero (read (confidence b))))
    end in
  if sortAsc s then cmp else neg cmp.

(** [const sorted = [...opportunities].sort(...)]. *)
Definition sorted (s : SortState) (opportunities : list ScoredFeature)
    : list ScoredFeature :=
  sort (comparefn s) opportunities.
End Comparator.

(** The rank of a confidence that names no inherited member: its own
    property of [order], or 0. *)
Definition confidence_key (a : ScoredFeature) : Q :=
  get order (confidence a) ?? 0.

(** The sort states the ranking can be asked for by field and direction. *)
Definition by_score (ascending : bool) : SortState :=
  {| sortField := SortRiceScore; sortAsc := ascending |}.

Definition by_confidence (ascending : bool) : SortState :=
  {| sortField := SortConfidence; sortAsc := ascending |}.

(** An opportunity carrying only what the ranking looks at. *)
Definition opp (n : string) (c : string) (r : option Q) : ScoredFeature :=
  {| name := js n; description := []; confidence := js c;
     rice_score := r; category := None |}.

(** Sample inputs: scores [3, 9, absent] and confidences
    [low, high, medium]. *)
Definition scores_3_9_absent : list ScoredFeature :=
  [opp "a" "high" (Some 3); opp "b" "high" (Some 9); opp "c" "high" None].

Definition confidences_low_high_medium : list ScoredFeature :=
  [opp "a" "low" None; opp "b" "high" None; opp "c" "medium" None].

(** An opportunity whose confidence names an inherited member. *)
Definition inherited_confidence : ScoredFeature :=
  opp "x" "constructor" None.

(** Scores [absent, -1] and [absent, -1, 2]. *)
Definition scores_absent_negative : list ScoredFeature :=
  [opp "a" "high" None; opp "b" "high" (Some (-1))].

Definition scores_absent_negative_positive : list ScoredFeature :=
  [opp "a" "high" None; opp "b" "high" (Some (-1)); opp "c" "high" (Some 2)].

End Ranking.

(* ================================================================== *)
(** ** Stage choreographer: [AnalysisLoading] *)
(* ================================================================== *)

Module Choreographer.
Local Open Scope Z_scope.

(** [// Simulated timing for each step in ms]. *)
Definition STEP_DURATIONS : list Z := [2000; 3000; 5000; 3000; 4000; 2000].

(** [STEP_DURATIONS[i]] as [setTimeout] takes it: an index out of range
    reads [undefined], which [setTimeout] uses as a delay of 0. *)
Definition duration (i : Z) : Z :=
  if i <? 0 then 0 else nth (Z.to_nat i) STEP_DURATIONS 0.

(** A timer pending in the host: the handle [setTimeout] returned and the
    instant it is due.  The callback is always the effect's [advanceStep]. *)
Record Timer := { handle : nat; due : Z }.

(** One mounted [AnalysisLoading]: the React state cell [activeStep], the
    effect closure's [currentStep] and [timeout] variables, and the host's
    side of it (pending timers, next timer handle, clock in ms). *)
Record state := {
  activeStep : Z;
  currentStep : Z;
  timeout : option nat;
  timers : list Timer;
  next_handle : nat;
  now : Z
}.

(** [timeout = setTimeout(advanceStep, delay)]. *)
Definition setTimeout (delay : Z) (s : state) : state :=
  {| activeStep := activeStep s;
     currentStep := currentStep s;
     timeout := Some (next_handle s);
     timers := timers s ++ [{| handle := next_handle s;
                               due := now s + delay |}];
     next_handle := S (next_handle s);
     now := now s |}.

(** [clearTimeout(timeout)]: drops the timer with that handle, and does
    nothing when there is none (or when [timeout] was never assigned). *)
Definition clearTimeout (h : option nat) (s : state) : state :=
  match h with
  | None => s
  | Some h =>
      {| activeStep := activeStep s;
         currentStep := currentStep s;
         timeout := timeout s;
         timers := filter (fun t => negb (Nat.eqb (handle t) h)) (timers s);
         next_handle := next_handle s;
         now := now s |}
  end.

Section Stages.
(** [PIPELINE_NODES.length]; the table is in lib/constants, and the
    component only reads its length for the stage index. *)
Variable PIPELINE_NODES_length : Z.

(** The effect's [advanceStep]. *)
Definition advanceStep (s : state) : state :=
  if currentStep s <? PIPELINE_NODES_length - 1 then
    let c := currentStep s + 1 in
    setTimeout (duration c)
      {| activeStep := c;
         currentStep := c;
         timeout := timeout s;
         timers := timers s;
         next_handle := next_handle s;
         now := now s |}
  else s.

(** Mounting at instant [t0]: [useState(0)], then the effect body:
    [let currentStep = 0] and
    [timeout = setTimeout(advanceStep, STEP_DURATIONS[0])]. *)
Definition mount (t0 : Z) : state :=
  setTimeout (duration 0)
    {| activeStep := 0; currentStep := 0; timeout := None;
       timers := []; next_handle := 0; now := t0 |}.

(** The effect's cleanup, [() => clearTimeout(timeout)], which React runs
    when the component is unmounted. *)
Definition cleanup (s : state) : state := clearTimeout (timeout s) s.

Definition pending (h : nat) (s : state) : option Timer :=
  find (fun t => Nat.eqb (handle t) h) (timers s).

(** The host runs the callback of pending timer [h] at the instant it is
    due; a handle that is not pending fires nothing. *)
Definition fire (h : nat) (s : state) : state :=
  match pending h s with
  | None => s
  | Some t =>
      advanceStep
        {| activeStep := activeStep s;
           currentStep := currentStep s;
           timeout := timeout s;
           timers := filter (fun t' => negb (Nat.eqb (handle t') h)) (timers s);
           next_handle := next_handle s;
           now := Z.max (now s) (due t) |}
  end.

Inductive event := Fire (h : nat) | Cleanup.

Definition step (e : event) (s : state) : state :=
  match e with
  | Fire h => fire h s
  | Cleanup => cleanup s
  end.

Definition run (es : list event) (s : state) : state :=
  fold_left (fun s e => step e s) es s.

(** The host letting the next pending timer fire. *)
Definition tick (s : state) : state :=
  match timers s with
  | [] => s
  | t :: _ => fire (handle t) s
  end.

Fixpoint ticks (n : nat) (s : state) : state :=
  match n with
  | O => s
  | S n' => ticks n' (tick s)
  end.

(** What holds of a mounted instance at every moment: the rendered index
    is the closure's, it lies within the stages, and the only timer that
    can be pending is the one [timeout] names. *)
Definition inv (s : state) : Prop :=
  activeStep s = currentStep s
  /\ 0 <= currentStep s <= Z.max 0 (PIPELINE_NODES_length - 1)
  /\ (timers s = []
      \/ exists t, timers s = [t] /\ timeout s = Some (handle t)).

End Stages.

(** Time the first [k] stages take together. *)
Fixpoint elapsed (k : nat) : Z :=
  match k with
  | O => 0
  | S k' => elapsed k' + duration (Z.of_nat k')
  end.

End Choreographer.

(* ================================================================== *)
(** ** The remote pipeline's values and the history cache *)
(* ================================================================== *)

Module Api.
Import JS.

(** [TopFeature] and [QueryResponse], with the fields the result view
    reads; the controller itself never looks inside a response. *)
Record TopFeature := {
  feature_name : jsstring;
  feature_description : jsstring;
  feature_confidence : jsstring;
  feature_rice_score : option Q
}.

Record QueryResponse := {
  top_feature : option TopFeature;
  feature_spec_markdown : option jsstring;
  ui_proposals_markdown : option jsstring;
  task_breakdown_markdown : option jsstring;
  all_opportunities : option (list Ranking.ScoredFeature)
}.

(** What [await runQuery(...)] can throw: an [Error] instance with its
    [message], or any other value. *)
Inductive thrown :=
| ErrorInstance (message : jsstring)
| NotAnError.

(** How the promise of one [runQuery] call settles. *)
Inductive settlement :=
| Fulfilled (response : QueryResponse)
| Rejected (err : thrown).

End Api.

Module History.
Import JS Api.

(** [AnalysisHistoryEntry], as [handleRun] builds it. *)
Record AnalysisHistoryEntry := {
  id : jsstring;
  query : jsstring;
  files : list jsstring;
  timestamp : Z;
  result : QueryResponse
}.

(** Modelled from the spec: the durable local store behind the cache is
    not among the sources.  A write succeeds, or the store is
    "unavailable or full" and the write fails with a [PersistenceError],
    which is what [error] stands for. *)
Inductive store :=
| Writable
| Unavailable (error : thrown)
| Full (error : thrown).

(** The error a write to the store throws, if it fails. *)
Definition write_error (s : store) : option thrown :=
  match s with
  | Writable => None
  | Unavailable error | Full error => Some error
  end.

(** Modelled from the spec: the hook [useAnalysisHistory]
    (lib/hooks/use-analysis-history) is not among the sources.
    [addEntry(entry)] "inserts at the head of the enumeration order
    (newest first) and persists.  Fails with a [PersistenceError] if the
    underlying durable store is unavailable or full": the new cache on
    the right, the error thrown on the left. *)
Definition addEntry (s : store) (entry : AnalysisHistoryEntry)
    (history : list AnalysisHistoryEntry)
    : thrown + list AnalysisHistoryEntry :=
  match s with
  | Writable => inr (entry :: history)
  | Unavailable error | Full error => inl error
  end.

End History.

(* ================================================================== *)
(** ** Query execution controller: [AnalysisPage] and [QueryInput] *)
(* ================================================================== *)

Module Controller.
Import JS Api.

(** The state cells of [AnalysisPage]. *)
Record page := {
  query : jsstring;
  selectedFiles : list jsstring;
  isRunning : bool;
  result : option QueryResponse
}.

(** A [handleRun] suspended at [await runQuery(query, selectedFiles)]:
    the request it issued and, with the same two values, the [query] and
    [selectedFiles] its closure will read when it resumes. *)
Record Run := { run_query : jsstring; run_files : list jsstring }.

(** Calls of [toast.success] and [toast.error]. *)
Inductive Toast :=
| ToastSuccess (message : jsstring)
| ToastError (message : jsstring).

(** The page with what it acts on: the history cache behind [addEntry],
    the requests issued and not yet settled (oldest first), the
    notifications raised so far (oldest first), and the condition of the
    durable store the cache writes to. *)
Record world := {
  ui : page;
  history : list History.AnalysisHistoryEntry;
  inflight : list Run;
  toasts : list Toast;
  store : History.store
}.

Definition set_ui (p : page) (w : world) : world :=
  {| ui := p; history := history w; inflight := inflight w;
     toasts := toasts w; store := store w |}.

(** A freshly mounted page over the persisted history [h], the store
    being writable. *)
Definition initial (h : list History.AnalysisHistoryEntry) : world :=
  {| ui := {| query := []; selectedFiles := []; isRunning := false;
              result := None |};
     history := h; inflight := []; toasts := [];
     store := History.Writable |}.

(** The durable store changes condition. *)
Definition setStore (s : History.store) (w : world) : world :=
  {| ui := ui w; history := history w; inflight := inflight w;
     toasts := toasts w; store := s |}.

(** [setQuery]. *)
Definition setQuery (q : jsstring) (w : world) : world :=
  set_ui {| query := q; selectedFiles := selectedFiles (ui w);
            isRunning := isRunning (ui w); result := result (ui w) |} w.

Definition toggleFile (filename : jsstring) (w : world) : world :=
  let prev := selectedFiles (ui w) in
  set_ui {| query := query (ui w);
            selectedFiles :=
              if includes prev filename
              then filter (fun f => negb (jsstring_eqb f filename)) prev
              else prev ++ [filename];
            isRunning := isRunning (ui w); result := result (ui w) |} w.

(** [handleRun] up to its [await]: the guard, [setIsRunning(true)],
    [setResult(null)] and the call of [runQuery]. *)
Definition handleRun (w : world) : world :=
  if negb (truthy (trim (query (ui w)))) then w
  else
    {| ui := {| query := query (ui w);
                selectedFiles := selectedFiles (ui w);
                isRunning := true;
                result := None |};
       history := history w;
       inflight := inflight w ++ [{| run_query := query (ui w);
                                     run_files := selectedFiles (ui w) |}];
       toasts := toasts w;
       store := store w |}.

(** The message of the [catch] branch:
    [err instanceof Error ? err.message : "Analysis failed"]. *)
Definition error_message (err : thrown) : jsstring :=
  match err with
  | ErrorInstance message => message
  | NotAnError => js "Analysis failed"
  end.

(** [handleRun] from its [await] on, for the run [r] whose promise settled
    as [o]: the rest of the [try] block or the [catch] block, then
    [finally].  [generateId] and [Date_now] are what the calls
    [generateId()] and [Date.now()] return at that moment.  When
    [addEntry] throws, [setResult(response)] has already run and the
    [catch] block takes over. *)
Definition resume (r : Run) (o : settlement) (generateId : jsstring)
    (Date_now : Z) (w : world) : world :=
  match o with
  | Fulfilled response =>
      match
        History.addEntry (store w)
          {| History.id := generateId;
             History.query := run_query r;
             History.files := run_files r;
             History.timestamp := Date_now;
             History.result := response |}
          (history w)
      with
      | inr history' =>
          {| ui := {| query := query (ui w);
                      selectedFiles := selectedFiles (ui w);
                      isRunning := false;
                      result := Some response |};
             history := history';
             inflight := inflight w;
             toasts := toasts w ++ [ToastSuccess (js "Analysis complete")];
             store := store w |}
      | inl err =>
          {| ui := {| query := query (ui w);
                      selectedFiles := selectedFiles (ui w);
                      isRunning := false;
                      result := Some response |};
             history := history w;
             inflight := inflight w;
             toasts := toasts w ++ [ToastError (error_message err)];
             store := store w |}
      end
  | Rejected err =>
      {| ui := {| query := query (ui w);
                  selectedFiles := selectedFiles (ui w);
                  isRunning := false;
                  result := result (ui w) |};
         history := history w;
         inflight := inflight w;
         toasts := toasts w ++ [ToastError (error_message err)];
         store := store w |}
  end.

(** The array without its [k]-th element. *)
Fixpoint remove_nth {A : Type} (k : nat) (l : list A) : list A :=
  match l, k with
  | [], _ => []
  | _ :: l', O => l'
  | x :: l', S k' => x :: remove_nth k' l'
  end.

(** The promise of the [k]-th outstanding request settles and its
    [handleRun] resumes; nothing happens for a [k] that is not
    outstanding. *)
Definition settle (k : nat) (o : settlement) (generateId : jsstring)
    (Date_now : Z) (w : world) : world :=
  match nth_error (inflight w) k with
  | None => w
  | Some r =>
      resume r o generateId Date_now
        {| ui := ui w; history := history w;
           inflight := remove_nth k (inflight w); toasts := toasts w;
           store := store w |}
  end.

(** [QueryInput]: [disabled={!query.trim() || isRunning}] on the button. *)
Definition button_disabled (p : page) : bool :=
  negb (truthy (trim (query p))) || isRunning p.

(** [onClick={onRun}]; a disabled button dispatches no click. *)
Definition onClick (w : world) : world :=
  if button_disabled (ui w) then w else handleRun w.

(** The textarea's [onKeyDown]:
    [if (e.key === "Enter" && (e.metaKey || e.ctrlKey)) onRun()]. *)
Definition onKeyDown (key : jsstring) (metaKey ctrlKey : bool) (w : world)
    : world :=
  if jsstring_eqb key (js "Enter") && (metaKey || ctrlKey)
  then handleRun w else w.

(** What the page renders below the inputs:
    [{isRunning && <AnalysisLoading />}] and
    [{result && !isRunning && <AnalysisResults result={result} />}]. *)
Record view := {
  run_disabled : bool;
  shows_loading : bool;
  shows_results : option QueryResponse
}.

Definition render (p : page) : view :=
  {| run_disabled := button_disabled p;
     shows_loading := isRunning p;
     shows_results := if isRunning p then None else result p |}.

(** Everything that can happen to the page. *)
Inductive event :=
| Change (q : jsstring)
| ToggleFile (filename : jsstring)
| Click
| KeyDown (key : jsstring) (metaKey ctrlKey : bool)
| Resolve (k : nat) (response : QueryResponse) (generateId : jsstring)
          (Date_now : Z)
| Reject (k : nat) (err : thrown)
| Storage (s : History.store).

Definition step (e : event) (w : world) : world :=
  match e with
  | Change q => setQuery q w
  | ToggleFile f => toggleFile f w
  | Click => onClick w
  | KeyDown key m c => onKeyDown key m c w
  | Resolve k response i t => settle k (Fulfilled response) i t w
  | Reject k err => settle k (Rejected err) [] 0%Z w
  | Storage s => setStore s w
  end.

Definition run (es : list event) (w : world) : world :=
  fold_left (fun w e => step e w) es w.

(** The events by which the user only edits the inputs. *)
Definition is_edit (e : event) : bool :=
  match e with
  | Change _ | ToggleFile _ => true
  | _ => false
  end.

(** The spec's controller states, read off the page: [Running] while
    [isRunning] is set, otherwise the outcome the last notification
    announced. *)
Inductive phase := Idle | Running | Succeeded | Failed.

Definition phase_of (w : world) : phase :=
  if isRunning (ui w) then Running
  else match rev (toasts w) with
       | [] => Idle
       | ToastSuccess _ :: _ => Succeeded
       | ToastError _ :: _ => Failed
       end.

(** "Empty or whitespace-only". *)
Definition blank (q : jsstring) : bool := forallb is_white_space q.

(** The entry [resume] hands to [addEntry] for run [r]. *)
Definition entry_of (r : Run) (response : QueryResponse)
    (generateId : jsstring) (Date_now : Z) : History.AnalysisHistoryEntry :=
  {| History.id := generateId;
     History.query := run_query r;
     History.files := run_files r;
     History.timestamp := Date_now;
     History.result := response |}.


(** Sample values: a response told apart by its feature spec, the
    Ctrl+Enter shortcut, and a session in which a second run is started
    from the keyboard while the first is outstanding and the first run's
    response arrives last. *)
Definition response_of (s : string) : QueryResponse :=
  {| top_feature := None;
     feature_spec_markdown := Some (js s);
     ui_proposals_markdown := None;
     task_breakdown_markdown := None;
     all_opportunities := None |}.

Definition ctrl_enter : event := KeyDown (js "Enter") false true.

Definition first_query : jsstring := js "Which requests come up most?".
Definition second_query : jsstring := js "What should we build next?".

Definition overlapping_runs : list event :=
  [Change first_query; ctrl_enter;
   Change second_query; ToggleFile (js "a.pdf"); ctrl_enter].

Definition late_response : list event :=
  overlapping_runs
  ++ [Resolve 1 (response_of "newer") (js "id-2") 2000%Z;
      Resolve 0 (response_of "older") (js "id-1") 3000%Z].

End Controller.

(* ================================================================== *)
(** ** The rest of the views *)
(* ================================================================== *)

(** What [OpportunitiesTab] renders around its sort. *)
Module RankingView.
Import JS Ranking.
Local Open Scope Q_scope.

(** The body of the table: nothing (the "No feature opportunities
    identified." paragraph) under the guard
    [!opportunities || opportunities.length === 0], otherwise one row per
    element of [sorted]. *)
Definition table_rows (localeCompare : jsstring -> jsstring -> Q)
    (s : SortState) (opportunities : option (list ScoredFeature))
    : option (list ScoredFeature) :=
  match opportunities with
  | None => None
  | Some [] => None
  | Some l => Some (sorted localeCompare s l)
  end.

End RankingView.

(** How [AnalysisLoading] draws the rows of the stage list. *)
Module LoadingView.
Import Choreographer.
Local Open Scope Z_scope.

(** [const isActive = index === activeStep]. *)
Definition isActive (index : Z) (s : state) : bool := index =? activeStep s.

(** [const isComplete = index < activeStep]. *)
Definition isComplete (index : Z) (s : state) : bool :=
  index <? activeStep s.

(** The indices [PIPELINE_NODES.map((node, index) => ...)] runs through. *)
Definition node_indices (PIPELINE_NODES_length : Z) : list Z :=
  map Z.of_nat (seq 0 (Z.to_nat PIPELINE_NODES_length)).

End LoadingView.

(** [Sidebar], [MobileNav], [Topbar] and the [PAGES] of [CommandPalette]. *)
Module Navigation.
Import JS.

(** [s.startsWith(p)]. *)
Fixpoint startsWith (s p : jsstring) {struct p} : bool :=
  match p, s with
  | [], _ => true
  | _ :: _, [] => false
  | c :: p', d :: s' => N.eqb c d && startsWith s' p'
  end.

(** [pathname === item.href ||
     (item.href !== "/dashboard" && pathname.startsWith(item.href))]. *)
Definition isActive (pathname href : jsstring) : bool :=
  jsstring_eqb pathname href
  || (negb (jsstring_eqb href (js "/dashboard")) && startsWith pathname href).

(** The [href]s of [PAGES], in order. *)
Definition PAGES : list jsstring :=
  [js "/dashboard"; js "/analysis"; js "/documents"; js "/integrations";
   js "/history"].

(** [PAGE_TITLES], a map from the literal's own keys. *)
Definition PAGE_TITLES : list (jsstring * jsstring) :=
  [(js "/dashboard", js "Dashboard");
   (js "/analysis", js "Analysis");
   (js "/documents", js "Documents");
   (js "/integrations", js "Integrations");
   (js "/history", js "History")].

Fixpoint lookup (o : list (jsstring * jsstring)) (k : jsstring)
    : option jsstring :=
  match o with
  | [] => None
  | (k', v) :: o' => if jsstring_eqb k k' then Some v else lookup o' k
  end.

(** [const title = PAGE_TITLES[pathname] || "Squash"]: the fallback also
    replaces an empty title. *)
Definition title (pathname : jsstring) : jsstring :=
  match lookup PAGE_TITLES pathname with
  | Some t => if truthy t then t else js "Squash"
  | None => js "Squash"
  end.

End Navigation.

(** [IntegrationGrid] and [IntegrationCard]. *)
Module Integrations.
Import JS.

(** [Integration], with the fields the two components read. *)
Record Integration := {
  id : jsstring;
  name : jsstring;
  description : jsstring;
  type : jsstring;
  capabilities : list jsstring
}.

(** The accumulator of the [reduce], an object used as a map from type to
    array: its own keys in insertion order, which is the order
    [Object.entries] lists keys that are not array indices. *)
Definition groups := list (jsstring * list Integration).

Fixpoint lookup (acc : groups) (k : jsstring) : option (list Integration) :=
  match acc with
  | [] => None
  | (k', v) :: acc' => if jsstring_eqb k k' then Some v else lookup acc' k
  end.

(** [acc[type].push(integration)]. *)
Fixpoint push (acc : groups) (k : jsstring) (x : Integration) : groups :=
  match acc with
  | [] => []
  | (k', v) :: acc' =>
      if jsstring_eqb k k' then (k', v ++ [x]) :: acc'
      else (k', v) :: push acc' k x
  end.

(** The callback of the [reduce]:
    [if (!acc[type]) acc[type] = []; acc[type].push(integration);
     return acc]. *)
Definition reducer (acc : groups) (integration : Integration) : groups :=
  let acc1 :=
    match lookup acc (type integration) with
    | None => acc ++ [(type integration, [])]
    | Some _ => acc
    end in
  push acc1 (type integration) integration.

(** [const grouped = INTEGRATIONS.reduce(..., {})]. *)
Definition grouped (INTEGRATIONS : list Integration) : groups :=
  fold_left reducer INTEGRATIONS [].

(** The integrations whose [type] is [t]. *)
Definition of_type (t : jsstring) (x : Integration) : bool :=
  jsstring_eqb (type x) t.

(** A sample catalogue: two analytics tools around a support tool. *)
Definition integration (n t : string) : Integration :=
  {| id := js n; name := js n; description := [];
     type := js t; capabilities := [] |}.

Definition sample_catalogue : list Integration :=
  [integration "mixpanel" "analytics"; integration "zendesk" "support";
   integration "posthog" "analytics"].

(** [cap.replace(/_/g, " ")]. *)
Definition capability_label (cap : jsstring) : jsstring :=
  map (fun c => if N.eqb c 95 then 32%N else c) cap.

End Integrations.

(** [RecentAnalyses] of the dashboard. *)
Module Dashboard.

(** [const recent = history.slice(0, 5)]. *)
Definition recent (history : list History.AnalysisHistoryEntry)
    : list History.AnalysisHistoryEntry :=
  firstn 5 history.

(** The guard [recent.length === 0], under which the card shows
    "No analyses yet." instead of links. *)
Definition shows_empty_state (history : list History.AnalysisHistoryEntry)
    : bool :=
  Nat.eqb (List.length (recent history)) 0.

End Dashboard.

(** [CommandPalette] inside [AppShell]: whether the dialog is open, and
    the path the router is at. *)
Module Palette.
Import JS.

Record state := { open : bool; pathname : jsstring }.

(** The [keydown] listener [down]:
    [if (e.key === "k" && (e.metaKey || e.ctrlKey)) onOpenChange(!open)]. *)
Definition down (key : jsstring) (metaKey ctrlKey : bool) (s : state)
    : state :=
  if jsstring_eqb key (js "k") && (metaKey || ctrlKey)
  then {| open := negb (open s); pathname := pathname s |}
  else s.

(** [navigate]: [router.push(href); onOpenChange(false)]. *)
Definition navigate (href : jsstring) (s : state) : state :=
  {| open := false; pathname := href |}.

(** The top bar's search button: [setCommandPaletteOpen(true)]. *)
Definition onOpenCommandPalette (s : state) : state :=
  {| open := true; pathname := pathname s |}.

End Palette.

(** Ways of looking at the events and notifications of the page. *)
Module Surface.
Import Controller.

Definition from_keyboard (e : event) : bool :=
  match e with KeyDown _ _ _ => true | _ => false end.

Definition is_success (t : Toast) : bool :=
  match t with ToastSuccess _ => true | ToastError _ => false end.

(** [FileSelector]: [const isSelected = selectedFiles.includes(file.name)]. *)
Definition isSelected (w : world) (filename : JS.jsstring) : bool :=
  JS.includes (selectedFiles (ui w)) filename.

(** No file name twice: in the selection, in the [file_ids] of any
    outstanding request, in the [files] of any history entry. *)
Definition duplicate_free (w : world) : Prop :=
  NoDup (selectedFiles (ui w))
  /\ Forall (fun r => NoDup (run_files r)) (inflight w)
  /\ Forall (fun e => NoDup (History.files e)) (history w).

(** No blank query: in any outstanding request, in any history entry. *)
Definition nonblank_queries (w : world) : Prop :=
  Forall (fun r => blank (run_query r) = false) (inflight w)
  /\ Forall (fun e => blank (History.query e) = false) (history w).

(** [isRunning] is set exactly while a request is outstanding, and there
    is one request then. *)
Definition one_run_at_most (w : world) : Prop :=
  if isRunning (ui w) then exists r, inflight w = [r] else inflight w = [].

End Surface.

(* ================================================================== *)
(** * Properties *)
(* ================================================================== *)

(** ** The stable sort *)

Module SortFacts.
Import JS.

Lemma insert_perm (A : Type) (c : A -> A -> number) (x : A) (l : list A) :
  Permutation (x :: l) (insert c x l).
Proof.
  induction l as [|y l IH]; simpl.
  - apply Permutation_refl.
  - destruct (keeps_order (c x y)).
    + apply Permutation_refl.
    + eapply Permutation_trans; [apply perm_swap|].
      now apply perm_skip.
Qed.

Lemma sort_perm (A : Type) (c : A -> A -> number) (l : list A) :
  Permutation l (sort c l).
Proof.
  induction l as [|x l IH]; simpl.
  - apply perm_nil.
  - eapply Permutation_trans; [apply perm_skip, IH|].
    apply insert_perm.
Qed.

(** Sortedness, for the elements [P] on which the comparator decides a
    total preorder [R]. *)
Section Ordered.
Variable A : Type.
Variable c : A -> A -> number.
Variable P : A -> Prop.
Variable R : A -> A -> Prop.
Hypothesis R_spec :
  forall x y, P x -> P y -> (keeps_order (c x y) = true <-> R x y).
Hypothesis R_total : forall x y, R x y \/ R y x.
Hypothesis R_trans : forall x y z, R x y -> R y z -> R x z.

Lemma insert_sorted (x : A) (l : list A) :
  P x -> Forall P l ->
  StronglySorted R l -> StronglySorted R (insert c x l).
Proof.
  intros Px Pl Hs. induction Hs as [|y l Hl IH Hy]; simpl.
  - repeat constructor.
  - inversion Pl as [|? ? Py Pl']; subst.
    destruct (keeps_order (c x y)) eqn:E.
    + apply (R_spec x y Px Py) in E.
      constructor; [now constructor|].
      constructor; [exact E|].
      eapply Forall_impl; [|exact Hy].
      intros z Hz. now apply R_trans with y.
    + assert (Hyx : R y x).
      { destruct (R_total x y) as [H|H]; [|exact H].
        apply (R_spec x y Px Py) in H. congruence. }
      constructor; [now apply IH|].
      apply Forall_forall. intros z Hz.
      apply (Permutation_in z (Permutation_sym (insert_perm A c x l))) in Hz.
      destruct Hz as [<-|Hz]; [exact Hyx|].
      rewrite Forall_forall in Hy. now apply Hy.
Qed.

Lemma sort_sorted (l : list A) :
  Forall P l -> StronglySorted R (sort c l).
Proof.
  induction 1 as [|x l Px Pl IH]; simpl.
  - constructor.
  - apply insert_sorted; [exact Px| |exact IH].
    exact (Permutation_Forall (sort_perm A c l) Pl).
Qed.

End Ordered.

Lemma le_zero_diff (x y : Q) : Qle_bool (x - y) 0 = true <-> (x <= y)%Q.
Proof.
  rewrite Qle_bool_iff. split; intros H.
  - apply Qle_minus_iff in H. apply Qle_minus_iff.
    setoid_replace (y + - x)%Q with (0 + - (x - y))%Q by ring. exact H.
  - apply Qle_minus_iff in H. apply Qle_minus_iff.
    setoid_replace (0 + - (x - y))%Q with (y + - x)%Q by ring. exact H.
Qed.

Lemma le_zero_opp_diff (x y : Q) :
  Qle_bool (- (x - y)) 0 = true <-> (y <= x)%Q.
Proof.
  rewrite Qle_bool_iff. split; intros H.
  - apply Qle_minus_iff in H. apply Qle_minus_iff.
    setoid_replace (x + - y)%Q with (0 + - - (x - y))%Q by ring. exact H.
  - apply Qle_minus_iff in H. apply Qle_minus_iff.
    setoid_replace (0 + - - (x - y))%Q with (x + - y)%Q by ring. exact H.
Qed.

(** Sorting by the difference of a numeric key, in either direction. *)
Section ByKey.
Variable A : Type.
Variable key : A -> Q.
Variable P : A -> Prop.

Lemma sort_ascending (c : A -> A -> number) (l : list A) :
  (forall a b, P a -> P b ->
               keeps_order (c a b) = Qle_bool (key a - key b) 0) ->
  Forall P l ->
  StronglySorted (fun a b => key a <= key b)%Q (sort c l).
Proof.
  intros Hc. apply sort_sorted.
  - intros x y Px Py. rewrite (Hc x y Px Py). apply le_zero_diff.
  - intros x y. destruct (Qlt_le_dec (key y) (key x)) as [H|H].
    + right. now apply Qlt_le_weak.
    + now left.
  - intros x y z. apply Qle_trans.
Qed.

Lemma sort_descending (c : A -> A -> number) (l : list A) :
  (forall a b, P a -> P b ->
               keeps_order (c a b) = Qle_bool (- (key a - key b)) 0) ->
  Forall P l ->
  StronglySorted (fun a b => key b <= key a)%Q (sort c l).
Proof.
  intros Hc. apply sort_sorted.
  - intros x y Px Py. rewrite (Hc x y Px Py). apply le_zero_opp_diff.
  - intros x y. destruct (Qlt_le_dec (key y) (key x)) as [H|H].
    + left. now apply Qlt_le_weak.
    + now right.
  - intros x y z H1 H2. now apply Qle_trans with (key y).
Qed.

End ByKey.

(** A sorted list around one of its elements. *)
Lemma sorted_around (A : Type) (R : A -> A -> Prop)
    (before : list A) (a : A) (after : list A) :
  StronglySorted R (before ++ a :: after) ->
  Forall (fun b => R b a) before /\ Forall (R a) after.
Proof.
  induction before as [|b before IH]; simpl; intros H.
  - inversion H; subst. split; [constructor|assumption].
  - inversion H as [|? ? Hs Hb]; subst.
    destruct (IH Hs) as [H1 H2]. split; [|exact H2].
    constructor; [|exact H1].
    rewrite Forall_forall in Hb. apply Hb, in_or_app. right. now left.
Qed.

Lemma all_true (A : Type) (l : list A) : Forall (fun _ => True) l.
Proof. induction l; constructor; auto. Qed.

End SortFacts.

(** ** Opportunity ranking *)

Module RankingFacts.
Import JS Ranking.
Local Open Scope Q_scope.

Lemma get_order_other (k : jsstring) :
  k <> js "high" -> k <> js "medium" -> k <> js "low" ->
  get order k = None.
Proof.
  intros H1 H2 H3. unfold order. simpl. unfold jsstring_eqb.
  destruct (list_eq_dec N.eq_dec k (js "high")); [contradiction|].
  destruct (list_eq_dec N.eq_dec k (js "medium")); [contradiction|].
  destruct (list_eq_dec N.eq_dec k (js "low")); [contradiction|].
  reflexivity.
Qed.

(** A confidence that names no inherited member is ranked by its own
    property of [order], or 0. *)
Lemma rank_plain (k : jsstring) :
  plain k = true ->
  ToNumber (or_zero (read k)) = Finite (get order k ?? 0).
Proof.
  unfold plain, read. intros H. apply negb_true_iff in H.
  destruct (get order k); [reflexivity|]. now rewrite H.
Qed.

Lemma rank_inherited (k : jsstring) :
  plain k = false -> ToNumber (or_zero (read k)) = NaN.
Proof.
  unfold plain, read. intros H. apply negb_false_iff in H.
  assert (E : get order k = None).
  { unfold includes in H. apply existsb_exists in H as (y & Hy & E).
    unfold jsstring_eqb in E.
    destruct (list_eq_dec N.eq_dec k y) as [<-|]; [|discriminate].
    unfold Object_prototype in Hy. simpl in Hy.
    repeat (destruct Hy as [<-|Hy]; [reflexivity|]).
    destruct Hy. }
  now rewrite E, H.
Qed.

Lemma plain_list (l : list ScoredFeature) :
  forallb (fun a => plain (confidence a)) l = true ->
  Forall (fun a => plain (confidence a) = true) l.
Proof. intros H. now apply Forall_forall, forallb_forall. Qed.

Lemma confidence_ascending (localeCompare : jsstring -> jsstring -> Q)
    (a b : ScoredFeature) :
  plain (confidence a) = true -> plain (confidence b) = true ->
  keeps_order (comparefn localeCompare (by_confidence true) a b)
  = Qle_bool (confidence_key a - confidence_key b) 0.
Proof.
  intros Ha Hb. unfold comparefn. simpl.
  now rewrite (rank_plain _ Ha), (rank_plain _ Hb).
Qed.

Lemma confidence_descending (localeCompare : jsstring -> jsstring -> Q)
    (a b : ScoredFeature) :
  plain (confidence a) = true -> plain (confidence b) = true ->
  keeps_order (comparefn localeCompare (by_confidence false) a b)
  = Qle_bool (- (confidence_key a - confidence_key b)) 0.
Proof.
  intros Ha Hb. unfold comparefn. simpl.
  now rewrite (rank_plain _ Ha), (rank_plain _ Hb).
Qed.

(** C8, as the comparator has it.  Ranking on [rice_score] compares the
    scores as numbers, an absent score counting as 0: the ascending
    result is non-decreasing in that key and the descending one
    non-increasing, both are permutations of the input; so in ascending
    order an opportunity without score comes after every negative score
    and before every positive one.  On the scores [3, 9, absent]
    descending gives [9, 3, absent] and ascending gives [absent, 3, 9];
    and the tab starts out descending by [rice_score]. *)
Theorem C8_rice_score_ranking (localeCompare : jsstring -> jsstring -> Q) :
  (forall a b,
      comparefn localeCompare (by_score true) a b
      = Finite ((rice_score a ?? 0) - (rice_score b ?? 0))
      /\ comparefn localeCompare (by_score false) a b
         = Finite (- ((rice_score a ?? 0) - (rice_score b ?? 0))))
  /\ (forall l,
        StronglySorted
          (fun a b => (rice_score a ?? 0) <= (rice_score b ?? 0))
          (sorted localeCompare (by_score true) l))
  /\ (forall l,
        StronglySorted
          (fun a b => (rice_score b ?? 0) <= (rice_score a ?? 0))
          (sorted localeCompare (by_score false) l))
  /\ (forall asc l, Permutation l (sorted localeCompare (by_score asc) l))
  /\ (forall l before a after,
        sorted localeCompare (by_score true) l = before ++ a :: after ->
        rice_score a = None ->
        Forall (fun b => (rice_score b ?? 0) <= 0) before
        /\ Forall (fun b => 0 <= (rice_score b ?? 0)) after)
  /\ map rice_score (sorted localeCompare (by_score false) scores_3_9_absent)
     = [Some 9; Some 3; None]
  /\ map rice_score (sorted localeCompare (by_score true) scores_3_9_absent)
     = [None; Some 3; Some 9]
  /\ initial = by_score false.
Proof.
  assert (Hasc : forall l,
             StronglySorted
               (fun a b => (rice_score a ?? 0) <= (rice_score b ?? 0))
               (sorted localeCompare (by_score true) l)).
  { intros l. unfold sorted.
    apply (SortFacts.sort_ascending _ (fun a => rice_score a ?? 0)
             (fun _ => True)); [reflexivity|apply SortFacts.all_true]. }
  split; [intros a b; split; reflexivity|].
  split; [exact Hasc|].
  split.
  { intros l. unfold sorted.
    apply (SortFacts.sort_descending _ (fun a => rice_score a ?? 0)
             (fun _ => True)); [reflexivity|apply SortFacts.all_true]. }
  split; [intros asc l; apply SortFacts.sort_perm|].
  split; [|repeat split].
  intros l before a after E Ha.
  pose proof (Hasc l) as H. rewrite E in H.
  apply SortFacts.sorted_around in H. rewrite Ha in H. exact H.
Qed.

(** Ascending on [absent, -1, 2]: the absent score lands between. *)
Lemma C8_rice_score_ranking_witness :
  Forall (fun b => (rice_score b ?? 0) <= 0) [opp "b" "high" (Some (-1))]
  /\ Forall (fun b => 0 <= (rice_score b ?? 0)) [opp "c" "high" (Some 2)].
Proof.
  destruct (C8_rice_score_ranking (fun _ _ => 0))
    as (_ & _ & _ & _ & H & _).
  apply (H scores_absent_negative_positive
           [opp "b" "high" (Some (-1))] (opp "a" "high" None)
           [opp "c" "high" (Some 2)]); reflexivity.
Defined.

(** C8 as stated fails where a score is negative: on [absent, -1] the
    ascending order is [-1, absent], the absent score is not lowest. *)
Lemma C8_counterexample :
  map rice_score
      (sorted (fun _ _ => 0) (by_score true) scores_absent_negative)
  = [Some (-1); None]
  /\ map rice_score scores_absent_negative = [None; Some (-1)].
Proof. split; reflexivity. Qed.

(** C9, with the failing input.  [order[k] ?? 0] gives 3, 2, 1 for high,
    medium, low and 0 for every other string that names no member of
    [Object.prototype]; over such confidences the descending result is
    non-increasing in that rank and the ascending one non-decreasing, and
    [low, high, medium] comes out as [high, medium, low].  For
    "constructor" the read finds the inherited member, [?? 0] does not
    apply, and the comparator answers [NaN] against every opportunity in
    both directions: the value is not ranked 0, it ties with "high" as
    with "low". *)
Theorem C9_confidence_ranking (localeCompare : jsstring -> jsstring -> Q) :
  (ToNumber (or_zero (read (js "high"))) = Finite 3
   /\ ToNumber (or_zero (read (js "medium"))) = Finite 2
   /\ ToNumber (or_zero (read (js "low"))) = Finite 1)
  /\ (forall k,
        plain k = true ->
        k <> js "high" -> k <> js "medium" -> k <> js "low" ->
        ToNumber (or_zero (read k)) = Finite 0)
  /\ (forall l,
        forallb (fun a => plain (confidence a)) l = true ->
        StronglySorted
          (fun a b => confidence_key b <= confidence_key a)
          (sorted localeCompare (by_confidence false) l)
        /\ StronglySorted
             (fun a b => confidence_key a <= confidence_key b)
             (sorted localeCompare (by_confidence true) l))
  /\ map confidence
         (sorted localeCompare (by_confidence false)
                 confidences_low_high_medium)
     = [js "high"; js "medium"; js "low"]
  /\ read (js "constructor") = Member
  /\ ToNumber (or_zero (read (js "constructor"))) = NaN
  /\ (forall asc b,
        comparefn localeCompare (by_confidence asc) inherited_confidence b
        = NaN
        /\ comparefn localeCompare (by_confidence asc) b
                     inherited_confidence
           = NaN)
  /\ keeps_order (comparefn localeCompare (by_confidence false)
                            inherited_confidence (opp "h" "high" None))
     = true
  /\ keeps_order (comparefn localeCompare (by_confidence false)
                            (opp "u" "urgent" None) (opp "h" "high" None))
     = false.
Proof.
  split; [repeat split|].
  split.
  { intros k Hp H1 H2 H3.
    now rewrite (rank_plain k Hp), get_order_other. }
  split.
  { intros l Hl. apply plain_list in Hl. unfold sorted. split.
    - apply (SortFacts.sort_descending _ confidence_key
               (fun a => plain (confidence a) = true)); [|exact Hl].
      intros a b. apply confidence_descending.
    - apply (SortFacts.sort_ascending _ confidence_key
               (fun a => plain (confidence a) = true)); [|exact Hl].
      intros a b. apply confidence_ascending. }
  split; [reflexivity|].
  split; [reflexivity|].
  split; [reflexivity|].
  split; [|split; reflexivity].
  intros asc b. unfold comparefn. cbn [sortField sortAsc by_confidence].
  change (ToNumber (or_zero (read (confidence inherited_confidence))))
    with NaN.
  destruct (ToNumber (or_zero (read (confidence b)))), asc; split;
    reflexivity.
Qed.

(** An unrecognised confidence that names no inherited member, and the
    sample list. *)
Lemma C9_confidence_ranking_witness :
  ToNumber (or_zero (read (js "urgent"))) = Finite 0
  /\ StronglySorted
       (fun a b => confidence_key b <= confidence_key a)
       (sorted (fun _ _ => 0) (by_confidence false)
               confidences_low_high_medium).
Proof.
  destruct (C9_confidence_ranking (fun _ _ => 0)) as (_ & H1 & H2 & _).
  split.
  - apply H1; [reflexivity|discriminate|discriminate|discriminate].
  - apply (H2 confidences_low_high_medium). reflexivity.
Defined.

End RankingFacts.

(** ** Stage choreographer *)

Module ChoreographerFacts.
Import Choreographer.
Local Open Scope Z_scope.

Lemma nth_nonneg (l : list Z) (n : nat) :
  Forall (fun d => 0 <= d) l -> 0 <= nth n l 0.
Proof.
  intros H. revert n.
  induction H as [|d l Hd _ IH]; intros [|n]; simpl; auto; lia.
Qed.

Lemma duration_nonneg (i : Z) : 0 <= duration i.
Proof.
  unfold duration. destruct (i <? 0); [lia|].
  apply nth_nonneg. unfold STEP_DURATIONS.
  repeat constructor; lia.
Qed.

Lemma elapsed_S (k : nat) :
  elapsed (S k) = elapsed k + duration (Z.of_nat k).
Proof. reflexivity. Qed.

Lemma filter_idem (A : Type) (f : A -> bool) (l : list A) :
  filter f (filter f l) = filter f l.
Proof.
  induction l as [|x l IH]; simpl; [reflexivity|].
  destruct (f x) eqn:E; simpl; [rewrite E|]; congruence.
Qed.

Section Stages.
Variable N : Z.

Lemma inv_mount (t0 : Z) : inv N (mount t0).
Proof.
  unfold inv, mount, setTimeout; simpl.
  repeat split; try lia.
  right. eexists. split; reflexivity.
Qed.

Lemma inv_advanceStep (s : state) :
  timers s = [] -> activeStep s = currentStep s ->
  0 <= currentStep s <= Z.max 0 (N - 1) ->
  inv N (advanceStep N s).
Proof.
  intros Ht Ha Hc. unfold advanceStep.
  destruct (currentStep s <? N - 1) eqn:E.
  - apply Z.ltb_lt in E. unfold inv, setTimeout; simpl.
    repeat split; try lia.
    right. rewrite Ht. eexists. split; reflexivity.
  - unfold inv. repeat split; try tauto; lia.
Qed.

Lemma fire_not_pending (h : nat) (s : state) :
  pending h s = None -> fire N h s = s.
Proof. unfold fire. now intros ->. Qed.

Lemma inv_fire (h : nat) (s : state) : inv N s -> inv N (fire N h s).
Proof.
  intros (Ha & Hc & Ht). unfold fire.
  destruct (pending h s) as [t|] eqn:E; [|now repeat split].
  apply inv_advanceStep; simpl; auto.
  destruct Ht as [Ht|(t' & Ht & _)].
  - now rewrite Ht.
  - unfold pending in E. rewrite Ht in *. simpl in *.
    destruct (Nat.eqb (handle t') h); [reflexivity|discriminate].
Qed.

Lemma timers_cleanup (s : state) : inv N s -> timers (cleanup s) = [].
Proof.
  intros (_ & _ & [Ht|(t & Ht & Hh)]); unfold cleanup, clearTimeout.
  - destruct (timeout s); simpl; rewrite Ht; reflexivity.
  - rewrite Hh. simpl. rewrite Ht. simpl.
    now rewrite Nat.eqb_refl.
Qed.

Lemma inv_cleanup (s : state) : inv N s -> inv N (cleanup s).
Proof.
  intros H. pose proof (timers_cleanup s H) as Ht.
  destruct H as (Ha & Hc & _).
  unfold inv. split; [|split]; [| |now left];
    unfold cleanup, clearTimeout; destruct (timeout s); simpl; auto.
Qed.

Lemma inv_step (e : event) (s : state) : inv N s -> inv N (step N e s).
Proof.
  destruct e; simpl; [apply inv_fire|apply inv_cleanup].
Qed.

Lemma run_app (es es' : list event) (s : state) :
  run N (es ++ es') s = run N es' (run N es s).
Proof. unfold run. apply fold_left_app. Qed.

Lemma inv_run (es : list event) (s : state) : inv N s -> inv N (run N es s).
Proof.
  revert s. induction es as [|e es IH]; intros s H; simpl; [exact H|].
  apply IH, inv_step, H.
Qed.

(** A step moves the index forward by one stage or leaves it. *)
Lemma step_index (e : event) (s : state) :
  inv N s ->
  activeStep (step N e s) = activeStep s
  \/ (activeStep s < N - 1 /\ activeStep (step N e s) = activeStep s + 1).
Proof.
  intros (Ha & Hc & Ht). destruct e as [h|]; simpl.
  - unfold fire. destruct (pending h s) as [t|]; [|now left].
    unfold advanceStep; simpl.
    destruct (currentStep s <? N - 1) eqn:E; simpl; [|now left].
    apply Z.ltb_lt in E. right. lia.
  - left. unfold cleanup, clearTimeout. now destruct (timeout s).
Qed.

Lemma run_index_mono (es : list event) (s : state) :
  inv N s -> activeStep s <= activeStep (run N es s).
Proof.
  revert s. induction es as [|e es IH]; intros s H; simpl; [lia|].
  specialize (IH _ (inv_step e s H)).
  destruct (step_index e s H) as [E|[_ E]]; lia.
Qed.

(** Without a pending timer nothing moves any more. *)
Lemma step_quiescent (e : event) (s : state) :
  timers s = [] -> step N e s = s.
Proof.
  intros Ht. destruct e as [h|]; simpl.
  - apply fire_not_pending. unfold pending. now rewrite Ht.
  - unfold cleanup, clearTimeout.
    destruct s as [a c [h|] ts n t]; simpl in *; [|reflexivity].
    now subst.
Qed.

Lemma run_quiescent (es : list event) (s : state) :
  timers s = [] -> run N es s = s.
Proof.
  intros Ht. induction es as [|e es IH]; simpl; [reflexivity|].
  now rewrite step_quiescent.
Qed.

Lemma ticks_S (n : nat) (s : state) :
  ticks N (S n) s = tick N (ticks N n s).
Proof.
  revert s. induction n as [|n IH]; intros s; [reflexivity|].
  change (ticks N (S (S n)) s) with (ticks N (S n) (tick N s)).
  now rewrite IH.
Qed.

(** The instance after its first [k] timers fired, while stages remain. *)
Lemma ticks_state (t0 : Z) (k : nat) :
  Z.of_nat k <= N - 1 ->
  ticks N k (mount t0)
  = {| activeStep := Z.of_nat k;
       currentStep := Z.of_nat k;
       timeout := Some k;
       timers := [{| handle := k; due := t0 + elapsed (S k) |}];
       next_handle := S k;
       now := t0 + elapsed k |}.
Proof.
  induction k as [|k IH]; intros Hk.
  - unfold mount, setTimeout; simpl. do 3 f_equal. lia.
  - rewrite ticks_S, IH by lia.
    unfold tick, fire, pending; simpl. rewrite Nat.eqb_refl; simpl.
    unfold advanceStep; simpl.
    replace (Z.of_nat k <? N - 1) with true
      by (symmetry; apply Z.ltb_lt; lia).
    unfold setTimeout; simpl.
    pose proof (duration_nonneg (Z.of_nat k)) as Hd.
    change (Z.pos (Pos.of_succ_nat k)) with (Z.of_nat (S k)).
    replace (Z.of_nat k + 1) with (Z.of_nat (S k)) by lia.
    rewrite Z.max_r by lia.
    do 3 f_equal. lia.
Qed.

Lemma tick_is_step (s : state) :
  tick N s = s \/ exists h, tick N s = step N (Fire h) s.
Proof.
  unfold tick. destruct (timers s) as [|t ts]; [now left|].
  right. now exists (handle t).
Qed.

Lemma ticks_is_run (n : nat) (s : state) :
  exists es, ticks N n s = run N es s.
Proof.
  revert s. induction n as [|n IH]; intros s.
  - now exists [].
  - simpl. destruct (IH (tick N s)) as [es Hes]. rewrite Hes.
    destruct (tick_is_step s) as [->|[h ->]].
    + now exists es.
    + now exists (Fire h :: es).
Qed.

Lemma ticks_add (a b : nat) (s : state) :
  ticks N (a + b) s = ticks N b (ticks N a s).
Proof.
  revert s. induction a as [|a IH]; intros s; simpl; [reflexivity|].
  apply IH.
Qed.

Lemma cleanup_idem (s : state) : cleanup (cleanup s) = cleanup s.
Proof.
  unfold cleanup, clearTimeout.
  destruct (timeout s) as [h|] eqn:E; simpl; rewrite ?E; [|reflexivity].
  now rewrite filter_idem.
Qed.

End Stages.

(** C6.  With at least one stage, the stage index is 0 on mounting; while
    a later stage remains, the index after [k] timer firings is [k], the
    one pending timer is due exactly [duration k] after stage [k] was
    entered, and its firing moves the index to [k + 1] at that instant;
    over any sequence of firings and cleanups the index never decreases,
    moves by at most one per event and stays within [0 .. N - 1]; and once
    at the last stage it stays there. *)
Theorem C6_stage_index (N t0 : Z) :
  1 <= N ->
  activeStep (mount t0) = 0
  /\ (forall k : nat,
        Z.of_nat k < N - 1 ->
        let s := ticks N k (mount t0) in
        activeStep s = Z.of_nat k
        /\ now s = t0 + elapsed k
        /\ timers s
           = [{| handle := k; due := now s + duration (Z.of_nat k) |}]
        /\ activeStep (tick N s) = Z.of_nat k + 1
        /\ now (tick N s) = now s + duration (Z.of_nat k))
  /\ (forall es e,
        let s := run N es (mount t0) in
        activeStep s <= activeStep (step N e s) <= activeStep s + 1
        /\ 0 <= activeStep s <= N - 1)
  /\ (forall es es',
        activeStep (run N es (mount t0)) = N - 1 ->
        activeStep (run N es' (run N es (mount t0))) = N - 1)
  /\ (forall n : nat,
        N - 1 <= Z.of_nat n ->
        activeStep (ticks N n (mount t0)) = N - 1).
Proof.
  intros HN.
  assert (Hbound : forall es,
             0 <= activeStep (run N es (mount t0)) <= N - 1).
  { intros es.
    destruct (inv_run N es _ (inv_mount N t0)) as (Ha & Hc & _).
    rewrite Ha. lia. }
  assert (Hhold : forall es es',
             activeStep (run N es (mount t0)) = N - 1 ->
             activeStep (run N es' (run N es (mount t0))) = N - 1).
  { intros es es' H.
    pose proof (run_index_mono N es' _ (inv_run N es _ (inv_mount N t0))) as Hm.
    pose proof (Hbound (es ++ es')) as Hb. rewrite run_app in Hb. lia. }
  split; [reflexivity|].
  split; [|split; [|split]].
  - intros k Hk s. subst s.
    rewrite <- ticks_S.
    rewrite (ticks_state N t0 (S k)) by lia.
    rewrite (ticks_state N t0 k) by lia.
    cbn [activeStep now timers]. rewrite !elapsed_S.
    repeat split; rewrite ?Z.add_assoc; try reflexivity; lia.
  - intros es e s. subst s.
    split; [|apply Hbound].
    destruct (step_index N e _ (inv_run N es _ (inv_mount N t0))) as [E|[_ E]];
      lia.
  - exact Hhold.
  - intros n Hn.
    replace n with (Z.to_nat (N - 1) + (n - Z.to_nat (N - 1)))%nat by lia.
    rewrite ticks_add.
    destruct (ticks_is_run N (Z.to_nat (N - 1)) (mount t0)) as [es Hes].
    destruct (ticks_is_run N (n - Z.to_nat (N - 1))
                (ticks N (Z.to_nat (N - 1)) (mount t0))) as [es' Hes'].
    rewrite Hes'. rewrite Hes. apply Hhold. rewrite <- Hes.
    rewrite ticks_state by lia. simpl. lia.
Qed.

(** The shipped schedule with six stages, mounted at instant 0: the
    fourth stage is entered after 2000 + 3000 + 5000 ms and left 3000 ms
    later. *)
Lemma C6_stage_index_witness :
  activeStep (ticks 6 3 (mount 0)) = 3
  /\ now (ticks 6 3 (mount 0)) = 10000
  /\ activeStep (tick 6 (ticks 6 3 (mount 0))) = 4
  /\ now (tick 6 (ticks 6 3 (mount 0))) = 13000
  /\ activeStep (ticks 6 9 (mount 0)) = 5.
Proof.
  destruct (C6_stage_index 6 0) as (_ & Hk & _ & _ & Hl); [lia|].
  destruct (Hk 3%nat) as (H1 & H2 & _ & H3 & H4); [lia|].
  split; [exact H1|].
  split; [exact H2|].
  split; [exact H3|].
  split; [exact H4|].
  apply (Hl 9%nat). lia.
Defined.

(** C7.  In whatever state the instance is, its cleanup leaves no timer
    pending; running it again changes nothing; and afterwards no event,
    a late firing of any timer handle included, changes the instance at
    all, so the stage index stays where it was.  The page stops rendering
    the component, which is when React runs that cleanup, as soon as an
    outstanding run settles, with a result or with an error. *)
Theorem C7_cleanup_cancels (N t0 : Z) (es : list event) :
  let s := run N es (mount t0) in
  timers (cleanup s) = []
  /\ cleanup (cleanup s) = cleanup s
  /\ activeStep (cleanup s) = activeStep s
  /\ (forall es', run N es' (cleanup s) = cleanup s)
  /\ (forall h, activeStep (fire N h (cleanup s)) = activeStep s)
  /\ (forall w k r o i t,
        nth_error (Controller.inflight w) k = Some r ->
        Controller.shows_loading
          (Controller.render
             (Controller.ui (Controller.settle k o i t w))) = false).
Proof.
  intros s.
  pose proof (timers_cleanup N _ (inv_run N es _ (inv_mount N t0))) as Ht.
  fold s in Ht.
  assert (Ha : activeStep (cleanup s) = activeStep s).
  { unfold cleanup, clearTimeout. now destruct (timeout s). }
  repeat split.
  - exact Ht.
  - apply cleanup_idem.
  - exact Ha.
  - intros es'. now apply run_quiescent.
  - intros h. rewrite <- Ha. f_equal.
    apply (step_quiescent N (Fire h)), Ht.
  - intros w k r o i t E. unfold Controller.settle. rewrite E.
    destruct o; [|reflexivity].
    unfold Controller.resume. cbn [Controller.store].
    destruct (Controller.store w); reflexivity.
Qed.

(** Cleanup in the third stage of six, then the late firing of an old
    timer handle; and the page taking the component down when its one
    outstanding run fails. *)
Lemma C7_cleanup_cancels_witness :
  let s := run 6 [Fire 0%nat; Fire 1%nat] (mount 0) in
  activeStep s = 2
  /\ timers (cleanup s) = []
  /\ activeStep (fire 6 2%nat (cleanup s)) = 2
  /\ Controller.shows_loading
       (Controller.render
          (Controller.ui
             (Controller.settle 0 (Api.Rejected Api.NotAnError) [] 0
                (Controller.run
                   [Controller.Change Controller.second_query;
                    Controller.ctrl_enter]
                   (Controller.initial []))))) = false.
Proof.
  intros s.
  destruct (C7_cleanup_cancels 6 0 [Fire 0%nat; Fire 1%nat])
    as (H1 & _ & _ & _ & H2 & H3).
  split; [reflexivity|].
  split; [exact H1|].
  split; [exact (H2 2%nat)|].
  apply (H3 _ 0%nat
            {| Controller.run_query := Controller.second_query;
               Controller.run_files := [] |}).
  reflexivity.
Defined.

End ChoreographerFacts.

(** ** Query execution controller *)

Module ControllerFacts.
Import JS Api Controller.

(** *** [trim] and blank strings *)

Lemma trimStart_nil (s : jsstring) :
  trimStart s = [] <-> blank s = true.
Proof.
  unfold blank. induction s as [|c s IH]; simpl; [tauto|].
  destruct (is_white_space c); simpl; [exact IH|].
  split; discriminate.
Qed.

Lemma trimStart_head (s : jsstring) (c : N) (s' : jsstring) :
  trimStart s = c :: s' -> is_white_space c = false.
Proof.
  induction s as [|d s IH]; simpl; [discriminate|].
  destruct (is_white_space d) eqn:E; [exact IH|].
  intros [= -> _]. exact E.
Qed.

Lemma blank_app (a b : jsstring) :
  blank (a ++ b) = blank a && blank b.
Proof. apply forallb_app. Qed.

Lemma trim_nil (s : jsstring) : trim s = [] <-> blank s = true.
Proof.
  unfold trim, trimEnd. split.
  - intros H. apply trimStart_nil.
    destruct (trimStart s) as [|c s'] eqn:E; [reflexivity|exfalso].
    apply trimStart_head in E.
    assert (H' : trimStart (rev (c :: s')) = []).
    { rewrite <- (rev_involutive (trimStart _)), H. reflexivity. }
    apply trimStart_nil in H'. simpl in H'.
    rewrite blank_app in H'. apply andb_true_iff in H' as [_ H'].
    simpl in H'. rewrite E in H'. discriminate.
  - intros H. apply trimStart_nil in H. now rewrite H.
Qed.

Lemma truthy_trim (s : jsstring) :
  truthy (trim s) = negb (blank s).
Proof.
  destruct (blank s) eqn:E.
  - apply trim_nil in E. now rewrite E.
  - destruct (trim s) eqn:T; [|reflexivity].
    apply trim_nil in T. congruence.
Qed.

(** *** Submitting *)

Lemma handleRun_blank (w : world) :
  blank (query (ui w)) = true -> handleRun w = w.
Proof.
  intros H. unfold handleRun. now rewrite truthy_trim, H.
Qed.

Lemma handleRun_accepts (w : world) :
  blank (query (ui w)) = false ->
  handleRun w
  = {| ui := {| query := query (ui w);
                selectedFiles := selectedFiles (ui w);
                isRunning := true;
                result := None |};
       history := history w;
       inflight := inflight w ++ [{| run_query := query (ui w);
                                     run_files := selectedFiles (ui w) |}];
       toasts := toasts w;
       store := store w |}.
Proof.
  intros H. unfold handleRun. now rewrite truthy_trim, H.
Qed.

(** The button path is closed while a run is in progress. *)
Lemma onClick_while_running (w : world) :
  isRunning (ui w) = true -> onClick w = w.
Proof.
  intros H. unfold onClick, button_disabled.
  now rewrite H, orb_true_r.
Qed.

(** *** Editing the inputs touches nothing but the inputs *)

Lemma edit_preserves (e : event) (w : world) :
  is_edit e = true ->
  inflight (step e w) = inflight w
  /\ history (step e w) = history w
  /\ toasts (step e w) = toasts w
  /\ isRunning (ui (step e w)) = isRunning (ui w)
  /\ result (ui (step e w)) = result (ui w).
Proof.
  destruct e; simpl; try discriminate; intros _; repeat split.
Qed.

Lemma edits_preserve (es : list event) (w : world) :
  forallb is_edit es = true ->
  inflight (run es w) = inflight w
  /\ history (run es w) = history w
  /\ toasts (run es w) = toasts w
  /\ isRunning (ui (run es w)) = isRunning (ui w)
  /\ result (ui (run es w)) = result (ui w).
Proof.
  revert w. induction es as [|e es IH]; intros w H; simpl in *.
  - repeat split.
  - apply andb_true_iff in H as [He Hes].
    destruct (IH (step e w) Hes) as (H1 & H2 & H3 & H4 & H5).
    destruct (edit_preserves e w He) as (E1 & E2 & E3 & E4 & E5).
    repeat split; congruence.
Qed.

Lemma edits_keep_store (es : list event) (w : world) :
  forallb is_edit es = true -> store (run es w) = store w.
Proof.
  revert w. induction es as [|e es IH]; intros w H; simpl in *.
  - reflexivity.
  - apply andb_true_iff in H as [He Hes]. rewrite (IH _ Hes).
    destruct e; simpl in *; try discriminate; reflexivity.
Qed.

(** *** Settling *)

Lemma nth_error_snoc (A : Type) (l : list A) (x : A) :
  nth_error (l ++ [x]) (List.length l) = Some x.
Proof.
  rewrite nth_error_app2, Nat.sub_diag by apply Nat.le_refl. reflexivity.
Qed.

Lemma remove_nth_snoc (A : Type) (l : list A) (x : A) :
  remove_nth (List.length l) (l ++ [x]) = l.
Proof.
  induction l as [|y l IH]; simpl; [reflexivity|]. now rewrite IH.
Qed.

Lemma remove_nth_length (A : Type) (k : nat) (l : list A) (x : A) :
  nth_error l k = Some x -> S (List.length (remove_nth k l)) = List.length l.
Proof.
  revert k. induction l as [|y l IH]; intros [|k]; simpl; try discriminate.
  - reflexivity.
  - intros H. now rewrite (IH k H).
Qed.

(** A fulfilled request: the response is stored, and then the entry is
    saved and success announced, or the write fails and its error is. *)
Lemma settle_fulfilled (w : world) (k : nat) (r : Run)
    (response : QueryResponse) (i : jsstring) (t : Z) :
  nth_error (inflight w) k = Some r ->
  settle k (Fulfilled response) i t w
  = {| ui := {| query := query (ui w);
                selectedFiles := selectedFiles (ui w);
                isRunning := false;
                result := Some response |};
       history := match History.write_error (store w) with
                  | None => entry_of r response i t :: history w
                  | Some _ => history w
                  end;
       inflight := remove_nth k (inflight w);
       toasts := toasts w
                 ++ [match History.write_error (store w) with
                     | None => ToastSuccess (js "Analysis complete")
                     | Some err => ToastError (error_message err)
                     end];
       store := store w |}.
Proof.
  intros H. unfold settle. rewrite H. unfold resume.
  cbn [store history]. now destruct (store w).
Qed.

Lemma settle_rejected (w : world) (k : nat) (r : Run) (err : thrown)
    (i : jsstring) (t : Z) :
  nth_error (inflight w) k = Some r ->
  settle k (Rejected err) i t w
  = {| ui := {| query := query (ui w);
                selectedFiles := selectedFiles (ui w);
                isRunning := false;
                result := result (ui w) |};
       history := history w;
       inflight := remove_nth k (inflight w);
       toasts := toasts w ++ [ToastError (error_message err)];
       store := store w |}.
Proof. intros H. unfold settle. now rewrite H. Qed.

Lemma phase_of_settled (p : page) h l ts (t : Toast) st :
  isRunning p = false ->
  phase_of {| ui := p; history := h; inflight := l; toasts := ts ++ [t];
              store := st |}
  = match t with ToastSuccess _ => Succeeded | ToastError _ => Failed end.
Proof.
  intros H. unfold phase_of. simpl. rewrite H, rev_app_distr. reflexivity.
Qed.

(** Every event either leaves requests and notifications alone, or issues
    exactly one request and raises [isRunning], or settles exactly one
    outstanding request with exactly one notification and lowers
    [isRunning]. *)
Lemma step_accounting (e : event) (w : world) :
  (inflight (step e w) = inflight w /\ toasts (step e w) = toasts w)
  \/ (exists r,
        inflight (step e w) = inflight w ++ [r]
        /\ toasts (step e w) = toasts w
        /\ isRunning (ui (step e w)) = true)
  \/ (exists k r t,
        nth_error (inflight w) k = Some r
        /\ inflight (step e w) = remove_nth k (inflight w)
        /\ toasts (step e w) = toasts w ++ [t]
        /\ isRunning (ui (step e w)) = false).
Proof.
  assert (Hrun : forall w0 : world,
             (inflight (handleRun w0) = inflight w0
              /\ toasts (handleRun w0) = toasts w0)
             \/ (exists r,
                   inflight (handleRun w0) = inflight w0 ++ [r]
                   /\ toasts (handleRun w0) = toasts w0
                   /\ isRunning (ui (handleRun w0)) = true)).
  { intros w0. destruct (blank (query (ui w0))) eqn:E.
    - left. now rewrite handleRun_blank.
    - right. rewrite handleRun_accepts by exact E. simpl.
      eexists. repeat split. }
  destruct e as [q|f| |key m c|k resp i t|k err|st]; simpl.
  - left. split; reflexivity.
  - left. split; reflexivity.
  - unfold onClick. destruct (button_disabled (ui w)).
    + left. split; reflexivity.
    + destruct (Hrun w) as [H|H]; [left|right; left]; exact H.
  - unfold onKeyDown.
    destruct (jsstring_eqb key (js "Enter") && (m || c)).
    + destruct (Hrun w) as [H|H]; [left|right; left]; exact H.
    + left. split; reflexivity.
  - destruct (nth_error (inflight w) k) as [r|] eqn:E.
    + right; right. rewrite (settle_fulfilled _ _ _ _ _ _ E). simpl.
      exists k, r. eexists. repeat split. exact E.
    + left. unfold settle. rewrite E. split; reflexivity.
  - destruct (nth_error (inflight w) k) as [r|] eqn:E.
    + right; right. rewrite (settle_rejected _ _ _ _ _ _ E). simpl.
      exists k, r. eexists. repeat split. exact E.
    + left. unfold settle. rewrite E. split; reflexivity.
  - left. split; reflexivity.
Qed.

(** C2.  With an empty or whitespace-only query, [handleRun] returns at
    its guard: the page, the outstanding requests, the displayed result,
    the history and the notifications are what they were, whether the run
    was asked for by the button or by the keyboard. *)
Theorem C2_blank_query_rejected (w : world) :
  blank (query (ui w)) = true ->
  trim (query (ui w)) = []
  /\ handleRun w = w
  /\ onClick w = w
  /\ (forall key metaKey ctrlKey, onKeyDown key metaKey ctrlKey w = w)
  /\ ui (handleRun w) = ui w
  /\ inflight (handleRun w) = inflight w
  /\ shows_results (render (ui (handleRun w)))
     = shows_results (render (ui w))
  /\ history (handleRun w) = history w.
Proof.
  intros H. pose proof (handleRun_blank w H) as E.
  split; [now apply trim_nil|].
  split; [exact E|].
  split; [unfold onClick; now destruct (button_disabled (ui w))|].
  split.
  { intros key m c. unfold onKeyDown.
    now destruct (jsstring_eqb key (js "Enter") && (m || c)). }
  rewrite E. repeat split.
Qed.

(** [submit("   ")] on a page showing an earlier result. *)
Lemma C2_blank_query_rejected_witness :
  let w := {| ui := {| query := js "   "; selectedFiles := [js "a.pdf"];
                       isRunning := false;
                       result := Some (response_of "earlier") |};
              history := []; inflight := []; toasts := [];
              store := History.Writable |} in
  handleRun w = w /\ step ctrl_enter w = w /\ step Click w = w.
Proof.
  intros w.
  destruct (C2_blank_query_rejected w) as (_ & H1 & H2 & H3 & _);
    [reflexivity|].
  split; [exact H1|]. split; [apply H3|exact H2].
Defined.



(** C4, as the [catch] block has it.  A run whose request fails lowers
    [isRunning], which leaves the controller in its failed state, keeps
    the history (and so its size) and the stored result as they were, and
    raises exactly one error notification whose text is the message of
    the thrown [Error], whatever that message is, or "Analysis failed"
    when what was thrown is not an [Error]. *)
Theorem C4_failure_notifies (w : world) (k : nat) (r : Run) (err : thrown) :
  nth_error (inflight w) k = Some r ->
  let w' := step (Reject k err) w in
  isRunning (ui w') = false
  /\ phase_of w' = Failed
  /\ history w' = history w
  /\ List.length (history w') = List.length (history w)
  /\ result (ui w') = result (ui w)
  /\ toasts w'
     = toasts w
       ++ [ToastError match err with
                      | ErrorInstance message => message
                      | NotAnError => js "Analysis failed"
                      end].
Proof.
  intros E w'. subst w'. simpl.
  rewrite (settle_rejected _ _ _ _ _ _ E).
  split; [reflexivity|].
  split; [now rewrite phase_of_settled|].
  repeat split.
Qed.

(** The only outstanding run fails with [new Error("Network down")]. *)
Lemma C4_failure_notifies_witness :
  let w := run [Change second_query; ctrl_enter] (initial []) in
  let w' := step (Reject 0 (ErrorInstance (js "Network down"))) w in
  phase_of w' = Failed
  /\ history w' = []
  /\ toasts w' = [ToastError (js "Network down")].
Proof.
  intros w.
  destruct (C4_failure_notifies w 0
              {| run_query := second_query; run_files := [] |}
              (ErrorInstance (js "Network down")))
    as (_ & H1 & H2 & _ & _ & H3); [reflexivity|].
  split; [exact H1|]. split; [exact H2|exact H3].
Defined.

(** C4 as stated fails for an [Error] without message: the request is
    rejected with [new Error()], whose message is the empty string, and
    the notification carries that empty text, not the fallback. *)
Lemma C4_counterexample :
  let w := run [Change second_query; ctrl_enter] (initial []) in
  let w' := step (Reject 0 (ErrorInstance [])) w in
  toasts w' = [ToastError []]
  /\ toasts w' <> [ToastError (js "Analysis failed")].
Proof.
  cbv zeta. split; [reflexivity|discriminate].
Qed.

(** C5.  With a query that is neither empty nor whitespace-only,
    [handleRun] raises [isRunning] and issues exactly one request; when
    that request settles, whatever was edited meanwhile, it is no longer
    outstanding, [isRunning] is lowered, and exactly one notification has
    been raised: the success one if the request was fulfilled and the
    entry saved, the error one if the request was rejected or the write
    to the history failed; so the controller ends succeeded or failed,
    never both and never neither.  More generally every event of the page
    either leaves requests and notifications alone, issues one request,
    or settles one outstanding request with one notification. *)
Theorem C5_one_outcome_per_run (w : world) :
  blank (query (ui w)) = false ->
  (phase_of (handleRun w) = Running
   /\ inflight (handleRun w)
      = inflight w ++ [{| run_query := query (ui w);
                          run_files := selectedFiles (ui w) |}]
   /\ toasts (handleRun w) = toasts w)
  /\ (forall edits o i t,
        forallb is_edit edits = true ->
        let w' := settle (List.length (inflight w)) o i t
                         (run edits (handleRun w)) in
        inflight w' = inflight w
        /\ isRunning (ui w') = false
        /\ phase_of w' <> Running
        /\ exists n,
             toasts w' = toasts w ++ [n]
             /\ match o, History.write_error (store w) with
                | Fulfilled _, None =>
                    n = ToastSuccess (js "Analysis complete")
                    /\ phase_of w' = Succeeded
                | Fulfilled _, Some err =>
                    n = ToastError (error_message err)
                    /\ phase_of w' = Failed
                | Rejected err, _ =>
                    n = ToastError (error_message err)
                    /\ phase_of w' = Failed
                end)
  /\ (forall e w0,
        (inflight (step e w0) = inflight w0
         /\ toasts (step e w0) = toasts w0)
        \/ (exists r,
              inflight (step e w0) = inflight w0 ++ [r]
              /\ toasts (step e w0) = toasts w0
              /\ isRunning (ui (step e w0)) = true)
        \/ (exists k r n,
              nth_error (inflight w0) k = Some r
              /\ inflight (step e w0) = remove_nth k (inflight w0)
              /\ toasts (step e w0) = toasts w0 ++ [n]
              /\ isRunning (ui (step e w0)) = false)).
Proof.
  intros Hq. pose proof (handleRun_accepts w Hq) as Ea.
  split; [rewrite Ea; repeat split|].
  split; [|exact step_accounting].
  intros edits o i t He w'.
  destruct (edits_preserve edits (handleRun w) He) as (Ei & _ & Et & _).
  pose proof (edits_keep_store edits (handleRun w) He) as Es.
  set (r := {| run_query := query (ui w);
               run_files := selectedFiles (ui w) |}).
  assert (Ei' : inflight (run edits (handleRun w)) = inflight w ++ [r])
    by (rewrite Ei, Ea; reflexivity).
  assert (Et' : toasts (run edits (handleRun w)) = toasts w)
    by (rewrite Et, Ea; reflexivity).
  assert (Es' : store (run edits (handleRun w)) = store w)
    by (rewrite Es, Ea; reflexivity).
  assert (En : nth_error (inflight (run edits (handleRun w)))
                         (List.length (inflight w)) = Some r)
    by (rewrite Ei'; apply nth_error_snoc).
  subst w'. destruct o as [response|err].
  - rewrite (settle_fulfilled _ _ _ _ _ _ En).
    rewrite phase_of_settled by reflexivity. simpl.
    rewrite Ei', Et', Es', remove_nth_snoc.
    destruct (History.write_error (store w));
      (repeat split; try discriminate; eexists; repeat split).
  - rewrite (settle_rejected _ _ _ _ _ _ En).
    rewrite phase_of_settled by reflexivity. simpl.
    rewrite Ei', Et', remove_nth_snoc.
    repeat split; try discriminate.
    eexists. split; [reflexivity|].
    destruct (History.write_error (store w)); split; reflexivity.
Qed.

(** One run that succeeds and one that fails, from a fresh page. *)
Lemma C5_one_outcome_per_run_witness :
  let w := setQuery second_query (initial []) in
  phase_of (handleRun w) = Running
  /\ phase_of (settle 0 (Fulfilled (response_of "spec")) (js "id-1")
                      1000%Z (handleRun w)) = Succeeded
  /\ phase_of (settle 0 (Rejected NotAnError) [] 0%Z (handleRun w))
     = Failed.
Proof.
  intros w.
  destruct (C5_one_outcome_per_run w) as ((H1 & _) & H2 & _);
    [reflexivity|].
  split; [exact H1|]. split.
  - destruct (H2 [] (Fulfilled (response_of "spec")) (js "id-1") 1000%Z)
      as (_ & _ & _ & n & _ & _ & H); [reflexivity|exact H].
  - destruct (H2 [] (Rejected NotAnError) [] 0%Z)
      as (_ & _ & _ & n & _ & _ & H); [reflexivity|exact H].
Defined.

(** C1 as stated fails: in the sample session the newer run's result is
    on display and is the only history entry when the earlier run's
    response arrives; that late response then replaces the displayed
    result and gets a history entry of its own. *)
Lemma C1_counterexample :
  let before := run (overlapping_runs
                     ++ [Resolve 1 (response_of "newer") (js "id-2") 2000%Z])
                    (initial []) in
  let after := step (Resolve 0 (response_of "older") (js "id-1") 3000%Z)
                    before in
  List.length (inflight (run overlapping_runs (initial []))) = 2
  /\ shows_results (render (ui before)) = Some (response_of "newer")
  /\ map History.query (history before) = [second_query]
  /\ after = run late_response (initial [])
  /\ shows_results (render (ui after)) = Some (response_of "older")
  /\ response_of "older" <> response_of "newer"
  /\ map History.query (history after) = [first_query; second_query]
  /\ map History.id (history after) = [js "id-1"; js "id-2"].
Proof.
  cbv zeta. repeat split; try reflexivity. discriminate.
Qed.

(** C10, at the failing input.  With a run outstanding the button is
    disabled and a click does nothing, but Ctrl+Enter in the textarea
    reaches [handleRun], which issues a second request while the first
    is still outstanding. *)
Theorem C10_keyboard_submits_while_running :
  let w := run [Change first_query; ctrl_enter] (initial []) in
  isRunning (ui w) = true
  /\ inflight w = [{| run_query := first_query; run_files := [] |}]
  /\ run_disabled (render (ui w)) = true
  /\ step Click w = w
  /\ inflight (step ctrl_enter w)
     = [{| run_query := first_query; run_files := [] |};
        {| run_query := first_query; run_files := [] |}].
Proof.
  cbv zeta. repeat split; reflexivity.
Qed.

End ControllerFacts.

(* ================================================================== *)
(** * Further properties of the components *)
(* ================================================================== *)

(** ** [OpportunitiesTab]: rows, ties, direction *)

Module RankingViewFacts.
Import JS Ranking RankingView.
Local Open Scope Q_scope.

Lemma insert_filter (A : Type) (c : A -> A -> number) (p : A -> bool)
    (x : A) (l : list A) :
  (forall y, p x = true -> p y = true -> keeps_order (c x y) = true) ->
  filter p (insert c x l) = filter p (x :: l).
Proof.
  intros Hp. induction l as [|y l IH]; [reflexivity|].
  cbn [insert]. destruct (keeps_order (c x y)) eqn:E; [reflexivity|].
  cbn [filter] in *. rewrite IH.
  destruct (p x) eqn:Px; [|reflexivity].
  destruct (p y) eqn:Py; [|reflexivity].
  rewrite (Hp y eq_refl Py) in E. discriminate.
Qed.

Lemma sort_filter (A : Type) (c : A -> A -> number) (p : A -> bool)
    (l : list A) :
  (forall x y, p x = true -> p y = true -> keeps_order (c x y) = true) ->
  filter p (sort c l) = filter p l.
Proof.
  intros Hp. induction l as [|x l IH]; [reflexivity|].
  cbn [sort fold_right]. fold (sort c l).
  rewrite insert_filter by (intros y; apply Hp).
  cbn [filter]. now rewrite IH.
Qed.

Lemma tie_compares_zero (asc : bool) (d : Q) :
  d == 0 ->
  keeps_order (if asc then Finite d else neg (Finite d)) = true.
Proof.
  intros H. destruct asc; simpl; apply Qle_bool_iff; rewrite H;
    apply Qle_refl.
Qed.

Lemma key_tie (k a b : Q) :
  Qeq_bool a k = true -> Qeq_bool b k = true -> a - b == 0.
Proof.
  intros Ha Hb. apply Qeq_bool_iff in Ha, Hb. rewrite Ha, Hb. ring.
Qed.

(** X1.  Whatever the column and direction, and whatever [localeCompare]
    answers, the table shows the placeholder exactly when there are no
    opportunities, and otherwise shows every opportunity exactly once. *)
Theorem X1_table_rows (localeCompare : jsstring -> jsstring -> Q)
    (s : SortState) (opportunities : option (list ScoredFeature)) :
  (table_rows localeCompare s opportunities = None
   <-> opportunities = None \/ opportunities = Some [])
  /\ (forall rows,
        table_rows localeCompare s opportunities = Some rows ->
        exists l,
          opportunities = Some l
          /\ Permutation l rows
          /\ List.length rows = List.length l).
Proof.
  split.
  - destruct opportunities as [[|a l]|]; simpl; split; intros H;
      try reflexivity; try discriminate; auto.
    + destruct H as [H|H]; discriminate.
  - intros rows H. destruct opportunities as [[|a l]|]; try discriminate.
    injection H as <-. exists (a :: l).
    pose proof (SortFacts.sort_perm _ (comparefn localeCompare s) (a :: l))
      as P.
    split; [reflexivity|]. split; [exact P|].
    symmetry. now apply Permutation_length.
Qed.

Lemma X1_table_rows_witness :
  exists l,
    Some scores_3_9_absent = Some l
    /\ Permutation l (sorted (fun _ _ => 0) (by_score true)
                             scores_3_9_absent)
    /\ List.length (sorted (fun _ _ => 0) (by_score true)
                           scores_3_9_absent) = List.length l.
Proof.
  apply (X1_table_rows (fun _ _ => 0) (by_score true)
           (Some scores_3_9_absent)).
  reflexivity.
Defined.

(** X2.  The sort is stable in both directions: the opportunities that
    share a score (an absent score counting as 0) stay in the order in
    which the pipeline returned them, and so do, in a list whose
    confidences name no member of [Object.prototype], the opportunities
    that share a confidence rank. *)
Theorem X2_ties_keep_input_order
    (localeCompare : jsstring -> jsstring -> Q) (asc : bool) (k : Q)
    (l : list ScoredFeature) :
  filter (fun a => Qeq_bool (rice_score a ?? 0) k)
         (sorted localeCompare (by_score asc) l)
  = filter (fun a => Qeq_bool (rice_score a ?? 0) k) l
  /\ (forallb (fun a => plain (confidence a)) l = true ->
      filter (fun a => Qeq_bool (get order (confidence a) ?? 0) k)
             (sorted localeCompare (by_confidence asc) l)
      = filter (fun a => Qeq_bool (get order (confidence a) ?? 0) k) l).
Proof.
  split; [|intros _]; unfold sorted; apply sort_filter; intros x y Hx Hy;
    unfold comparefn; cbn [sortField sortAsc by_score by_confidence].
  - apply tie_compares_zero. now apply key_tie with k.
  - destruct (plain (confidence x)) eqn:Px;
      [|rewrite (RankingFacts.rank_inherited _ Px); now destruct asc].
    destruct (plain (confidence y)) eqn:Py;
      [|rewrite (RankingFacts.rank_inherited _ Py),
          (RankingFacts.rank_plain _ Px); now destruct asc].
    rewrite (RankingFacts.rank_plain _ Px), (RankingFacts.rank_plain _ Py).
    apply tie_compares_zero. now apply key_tie with k.
Qed.

(** Two opportunities of low confidence around one of high confidence. *)
Lemma X2_ties_keep_input_order_witness :
  filter (fun a => Qeq_bool (get order (confidence a) ?? 0) 1)
         (sorted (fun _ _ => 0) (by_confidence false)
                 [opp "a" "low" None; opp "b" "high" None;
                  opp "c" "low" None])
  = [opp "a" "low" None; opp "c" "low" None].
Proof.
  destruct (X2_ties_keep_input_order (fun _ _ => 0) false 1
              [opp "a" "low" None; opp "b" "high" None;
               opp "c" "low" None]) as [_ H].
  rewrite H; reflexivity.
Defined.

Section Reversal.
Variable A : Type.

Lemma StronglySorted_snoc (R : A -> A -> Prop) (l : list A) (a : A) :
  StronglySorted R l -> Forall (fun x => R x a) l ->
  StronglySorted R (l ++ [a]).
Proof.
  induction 1 as [|x l Hl IH Hx]; intros Ha; simpl.
  - repeat constructor.
  - inversion Ha as [|? ? Hxa Hla]; subst.
    constructor; [now apply IH|].
    apply Forall_app. split; [exact Hx|]. now repeat constructor.
Qed.

Lemma StronglySorted_rev (R : A -> A -> Prop) (l : list A) :
  StronglySorted R l -> StronglySorted (fun a b => R b a) (rev l).
Proof.
  induction 1 as [|x l Hl IH Hx]; simpl; [constructor|].
  apply StronglySorted_snoc; [exact IH|].
  apply Forall_rev. exact Hx.
Qed.

(** A list has at most one arrangement that is sorted for a strict
    order. *)
Lemma sorted_perm_unique (R : A -> A -> Prop) (l1 l2 : list A) :
  (forall x, ~ R x x) ->
  (forall x y z, R x y -> R y z -> R x z) ->
  StronglySorted R l1 -> StronglySorted R l2 -> Permutation l1 l2 ->
  l1 = l2.
Proof.
  intros Hirr Htr H1. revert l2.
  induction H1 as [|a l1 Hl1 IH Ha]; intros l2 H2 P.
  - apply Permutation_nil in P. now subst.
  - destruct l2 as [|b l2];
      [apply Permutation_sym, Permutation_nil in P; discriminate|].
    inversion H2 as [|? ? Hl2 Hb]; subst.
    assert (E : a = b).
    { assert (Ia : In a (b :: l2))
        by (apply (Permutation_in a P); now left).
      assert (Ib : In b (a :: l1))
        by (apply (Permutation_in b (Permutation_sym P)); now left).
      destruct Ia as [Ia|Ia]; [now symmetry|].
      destruct Ib as [Ib|Ib]; [exact Ib|].
      rewrite Forall_forall in Ha, Hb.
      exfalso. apply (Hirr a). apply Htr with b; auto. }
    subst b. f_equal. apply IH; [exact Hl2|].
    now apply Permutation_cons_inv with a.
Qed.

Variable key : A -> Q.

Lemma sorted_strict (R : A -> A -> Prop) (l : list A) :
  NoDup l ->
  (forall a b, In a l -> In b l -> key a == key b -> a = b) ->
  StronglySorted R l ->
  StronglySorted (fun a b => R a b /\ ~ key a == key b) l.
Proof.
  intros Hnd Hinj Hs.
  induction Hs as [|a l Hl IH Ha]; [constructor|].
  inversion Hnd as [|? ? Hnotin Hnd']; subst.
  constructor.
  - apply IH; [exact Hnd'|].
    intros x y Hx Hy. apply Hinj; now right.
  - rewrite Forall_forall in *. intros b Hb. split; [now apply Ha|].
    intros E. apply Hnotin.
    rewrite (Hinj a b) by (simpl; auto). exact Hb.
Qed.

Variable P : A -> Prop.

Lemma sort_reverses (c_asc c_desc : A -> A -> number) (l : list A) :
  (forall a b, P a -> P b ->
               keeps_order (c_asc a b) = Qle_bool (key a - key b) 0) ->
  (forall a b, P a -> P b ->
               keeps_order (c_desc a b) = Qle_bool (- (key a - key b)) 0) ->
  Forall P l ->
  NoDup l ->
  (forall a b, In a l -> In b l -> key a == key b -> a = b) ->
  sort c_asc l = rev (sort c_desc l).
Proof.
  intros Hasc Hdesc HP Hnd Hinj.
  pose proof (SortFacts.sort_perm _ c_asc l) as P1.
  pose proof (SortFacts.sort_perm _ c_desc l) as P2.
  assert (T : forall l', Permutation l l' ->
              NoDup l'
              /\ forall a b, In a l' -> In b l' -> key a == key b -> a = b).
  { intros l' Pm. split; [now apply (Permutation_NoDup Pm)|].
    intros a b Ia Ib. apply Hinj;
      eapply Permutation_in; try apply Permutation_sym; eauto. }
  destruct (T _ P1) as [N1 I1]. destruct (T _ P2) as [N2 I2].
  pose proof (sorted_strict _ _ N1 I1
                (SortFacts.sort_ascending _ key P c_asc l Hasc HP)) as S1.
  pose proof (sorted_strict _ _ N2 I2
                (SortFacts.sort_descending _ key P c_desc l Hdesc HP))
    as S2.
  apply StronglySorted_rev in S2.
  apply (sorted_perm_unique
           (fun a b => key a <= key b /\ ~ key a == key b)).
  - intros x [_ H]. apply H. reflexivity.
  - intros x y z [H1 N1'] [H2 N2']. split; [now apply Qle_trans with (key y)|].
    intros E. apply N1'. apply Qle_antisym; [exact H1|].
    rewrite E. exact H2.
  - exact S1.
  - eapply StronglySorted_ind with (P := fun l0 =>
      StronglySorted (fun a b => key a <= key b /\ ~ key a == key b) l0);
      [constructor| |exact S2].
    intros a l0 _ IH Ha. constructor; [exact IH|].
    eapply Forall_impl; [|exact Ha].
    intros b [H1 H2]. split; [exact H1|].
    intros E. apply H2. now symmetry.
  - eapply Permutation_trans; [apply Permutation_sym, P1|].
    eapply Permutation_trans; [apply P2|]. apply Permutation_rev.
Qed.

End Reversal.

(** X3.  When no opportunity occurs twice and no two of them share a
    score (an absent score counting as 0), clicking the score header
    again turns the table upside down: the ascending order is the reverse
    of the descending one.  The same holds for the confidence column
    when, besides, no confidence names a member of [Object.prototype]. *)
Theorem X3_direction_reverses (localeCompare : jsstring -> jsstring -> Q)
    (l : list ScoredFeature) :
  NoDup l ->
  ((forall a b, In a l -> In b l ->
                rice_score a ?? 0 == rice_score b ?? 0 -> a = b) ->
   sorted localeCompare (by_score true) l
   = rev (sorted localeCompare (by_score false) l))
  /\ (forallb (fun a => plain (confidence a)) l = true ->
      (forall a b, In a l -> In b l ->
                   get order (confidence a) ?? 0
                   == get order (confidence b) ?? 0 -> a = b) ->
      sorted localeCompare (by_confidence true) l
      = rev (sorted localeCompare (by_confidence false) l)).
Proof.
  intros Hnd. split; [intros Hinj|intros Hp Hinj]; unfold sorted.
  - apply (sort_reverses _ (fun a => rice_score a ?? 0) (fun _ => True));
      try assumption; try reflexivity.
    apply SortFacts.all_true.
  - apply (sort_reverses _ confidence_key
             (fun a => plain (confidence a) = true)); try assumption.
    + intros a b. apply RankingFacts.confidence_ascending.
    + intros a b. apply RankingFacts.confidence_descending.
    + now apply RankingFacts.plain_list.
Qed.

Lemma X3_direction_reverses_witness :
  sorted (fun _ _ => 0) (by_score true) scores_3_9_absent
  = rev (sorted (fun _ _ => 0) (by_score false) scores_3_9_absent)
  /\ sorted (fun _ _ => 0) (by_confidence true) confidences_low_high_medium
     = rev (sorted (fun _ _ => 0) (by_confidence false)
                   confidences_low_high_medium).
Proof.
  split.
  - apply (X3_direction_reverses (fun _ _ => 0) scores_3_9_absent).
    + repeat constructor; simpl; intuition discriminate.
    + intros a b Ha Hb. simpl in Ha, Hb.
      destruct Ha as [<-|[<-|[<-|[]]]]; destruct Hb as [<-|[<-|[<-|[]]]];
        intros E; try reflexivity; vm_compute in E; discriminate.
  - apply (X3_direction_reverses (fun _ _ => 0)
             confidences_low_high_medium).
    + repeat constructor; simpl; intuition discriminate.
    + reflexivity.
    + intros a b Ha Hb. simpl in Ha, Hb.
      destruct Ha as [<-|[<-|[<-|[]]]]; destruct Hb as [<-|[<-|[<-|[]]]];
        intros E; try reflexivity; vm_compute in E; discriminate.
Defined.

End RankingViewFacts.

(** ** [AnalysisLoading]: timers and rows *)

Module LoadingViewFacts.
Import Choreographer LoadingView ChoreographerFacts.
Local Open Scope Z_scope.

Lemma tick_quiescent (N : Z) (s : state) : timers s = [] -> tick N s = s.
Proof. unfold tick. now intros ->. Qed.

Lemma ticks_quiescent (N : Z) (n : nat) (s : state) :
  timers s = [] -> ticks N n s = s.
Proof.
  intros H. induction n as [|n IH]; [reflexivity|].
  simpl. now rewrite tick_quiescent.
Qed.

(** The instance once the timer of the last stage has fired. *)
Lemma ticks_done (N t0 : Z) :
  1 <= N ->
  ticks N (Z.to_nat N) (mount t0)
  = {| activeStep := N - 1;
       currentStep := N - 1;
       timeout := Some (Z.to_nat (N - 1));
       timers := [];
       next_handle := Z.to_nat N;
       now := t0 + elapsed (Z.to_nat N) |}.
Proof.
  intros HN.
  replace (Z.to_nat N) with (S (Z.to_nat (N - 1))) by lia.
  rewrite ticks_S, ticks_state by lia.
  unfold tick, fire, pending; simpl. rewrite Nat.eqb_refl; simpl.
  unfold advanceStep; simpl.
  replace (Z.of_nat (Z.to_nat (N - 1)) <? N - 1) with false
    by (symmetry; apply Z.ltb_ge; lia).
  pose proof (duration_nonneg (Z.of_nat (Z.to_nat (N - 1)))) as Hd.
  rewrite Z.max_r by lia.
  rewrite Z2Nat.id by lia. reflexivity.
Qed.

(** X4.  The timer chain ends.  With N >= 1 stages, once N timers have
    fired the instance has scheduled exactly N timers in all, none is
    pending, the index rests at the last stage, and the clock stands at
    the sum of the first N durations after mounting; letting the host run
    any longer changes nothing. *)
Theorem X4_timer_chain_ends (N t0 : Z) (n : nat) :
  1 <= N -> (Z.to_nat N <= n)%nat ->
  let s := ticks N n (mount t0) in
  timers s = []
  /\ next_handle s = Z.to_nat N
  /\ activeStep s = N - 1
  /\ now s = t0 + elapsed (Z.to_nat N)
  /\ s = ticks N (Z.to_nat N) (mount t0).
Proof.
  intros HN Hn s. subst s.
  replace n with (Z.to_nat N + (n - Z.to_nat N))%nat by lia.
  rewrite ticks_add, ticks_done by exact HN.
  rewrite ticks_quiescent by reflexivity.
  repeat split.
Qed.

(** Six stages mounted at instant 0: quiet after 19 seconds. *)
Lemma X4_timer_chain_ends_witness :
  timers (ticks 6 10 (mount 0)) = []
  /\ next_handle (ticks 6 10 (mount 0)) = 6%nat
  /\ now (ticks 6 10 (mount 0)) = 19000.
Proof.
  destruct (X4_timer_chain_ends 6 0 10) as (H1 & H2 & _ & H3 & _);
    [lia|simpl; lia|].
  split; [exact H1|]. split; [exact H2|exact H3].
Defined.

(** X5.  However timers fire and whenever the cleanup runs, the instance
    never has more than one timer pending, the pending timer is the one
    the closure's [timeout] names, and the rendered index is the
    closure's [currentStep]. *)
Theorem X5_one_timer_at_most (N t0 : Z) (es : list event) :
  let s := run N es (mount t0) in
  (List.length (timers s) <= 1)%nat
  /\ (forall t, In t (timers s) -> timeout s = Some (handle t))
  /\ activeStep s = currentStep s.
Proof.
  intros s.
  destruct (inv_run N es _ (inv_mount N t0)) as (Ha & _ & Ht).
  fold s in Ha, Ht.
  split; [|split; [|exact Ha]].
  - destruct Ht as [->|(t & -> & _)]; simpl; lia.
  - intros t Hin. destruct Ht as [E|(t' & E & Hh)]; rewrite E in Hin.
    + destruct Hin.
    + destruct Hin as [<-|[]]. exact Hh.
Qed.

Lemma X5_one_timer_at_most_witness :
  timeout (run 6 [Fire 0%nat] (mount 0)) = Some 1%nat.
Proof.
  destruct (X5_one_timer_at_most 6 0 [Fire 0%nat]) as (_ & H & _).
  apply (H {| handle := 1; due := 5000 |}). simpl. now left.
Defined.

Lemma filter_eq_indices (a : Z) (start len : nat) :
  filter (fun i => i =? a) (map Z.of_nat (seq start len))
  = if (Z.of_nat start <=? a) && (a <? Z.of_nat (start + len))
    then [a] else [].
Proof.
  revert start. induction len as [|len IH]; intros start.
  - simpl. rewrite Nat.add_0_r.
    destruct (Z.of_nat start <=? a) eqn:E1;
      destruct (a <? Z.of_nat start) eqn:E2; simpl; try reflexivity.
    apply Z.leb_le in E1. apply Z.ltb_lt in E2. lia.
  - cbn [seq map filter]. rewrite IH.
    replace (S start + len)%nat with (start + S len)%nat by lia.
    destruct (Z.of_nat start =? a) eqn:E.
    + apply Z.eqb_eq in E. subst a.
      replace (Z.of_nat (S start) <=? Z.of_nat start) with false
        by (symmetry; apply Z.leb_gt; lia).
      rewrite Z.leb_refl.
      replace (Z.of_nat start <? Z.of_nat (start + S len)) with true
        by (symmetry; apply Z.ltb_lt; lia).
      reflexivity.
    + apply Z.eqb_neq in E.
      replace (Z.of_nat (S start) <=? a) with (Z.of_nat start <=? a);
        [reflexivity|].
      destruct (Z.of_nat start <=? a) eqn:E1; symmetry.
      * apply Z.leb_le in E1. apply Z.leb_le. lia.
      * apply Z.leb_gt in E1. apply Z.leb_gt. lia.
Qed.

Lemma filter_lt_indices (a : Z) (len : nat) :
  0 <= a <= Z.of_nat len ->
  filter (fun i => i <? a) (map Z.of_nat (seq 0 len))
  = map Z.of_nat (seq 0 (Z.to_nat a)).
Proof.
  intros Ha. replace len with (Z.to_nat a + (len - Z.to_nat a))%nat by lia.
  rewrite seq_app, map_app, filter_app.
  rewrite forallb_filter_id.
  - rewrite (filter_ext_in _ (fun _ => false)), filter_false.
    + apply app_nil_r.
    + intros i Hi. apply in_map_iff in Hi as (k & <- & Hk).
      apply in_seq in Hk. apply Z.ltb_ge. lia.
  - apply forallb_forall. intros i Hi.
    apply in_map_iff in Hi as (k & <- & Hk).
    apply in_seq in Hk. apply Z.ltb_lt. lia.
Qed.

(** X6.  With N >= 1 stages, at every moment of a mounted instance the
    list shows exactly one active row, the one at the stage index; the
    rows before it, and only those, are complete; and no row is both. *)
Theorem X6_one_active_row (N t0 : Z) (es : list event) :
  1 <= N ->
  let s := run N es (mount t0) in
  filter (fun index => isActive index s) (node_indices N) = [activeStep s]
  /\ filter (fun index => isComplete index s) (node_indices N)
     = node_indices (activeStep s)
  /\ forall index, isActive index s && isComplete index s = false.
Proof.
  intros HN s.
  destruct (inv_run N es _ (inv_mount N t0)) as (Ha & Hc & _).
  fold s in Ha, Hc. rewrite <- Ha in Hc.
  unfold node_indices, isActive, isComplete.
  split; [|split].
  - rewrite filter_eq_indices. simpl.
    replace (0 <=? activeStep s) with true
      by (symmetry; apply Z.leb_le; lia).
    replace (activeStep s <? Z.of_nat (Z.to_nat N)) with true
      by (symmetry; apply Z.ltb_lt; lia).
    reflexivity.
  - apply filter_lt_indices. lia.
  - intros index. destruct (index =? activeStep s) eqn:E; [|reflexivity].
    apply Z.eqb_eq in E. simpl. apply Z.ltb_ge. lia.
Qed.

(** Six stages, two timers fired: row 2 active, rows 0 and 1 complete. *)
Lemma X6_one_active_row_witness :
  let s := run 6 [Fire 0%nat; Fire 1%nat] (mount 0) in
  filter (fun index => isActive index s) (node_indices 6) = [2]
  /\ filter (fun index => isComplete index s) (node_indices 6) = [0; 1].
Proof.
  intros s.
  destruct (X6_one_active_row 6 0 [Fire 0%nat; Fire 1%nat]) as (H1 & H2 & _);
    [lia|].
  split; [exact H1|exact H2].
Defined.

End LoadingViewFacts.

(** ** [AnalysisPage], [QueryInput], [FileSelector]: selection and runs *)

Module SurfaceFacts.
Import JS Api Controller Surface ControllerFacts.

Lemma jsstring_eqb_eq (a b : jsstring) : jsstring_eqb a b = true <-> a = b.
Proof.
  unfold jsstring_eqb. destruct (list_eq_dec N.eq_dec a b); split;
    congruence.
Qed.

Lemma jsstring_eqb_refl (a : jsstring) : jsstring_eqb a a = true.
Proof. now apply jsstring_eqb_eq. Qed.

Lemma jsstring_eqb_neq (a b : jsstring) : a <> b -> jsstring_eqb a b = false.
Proof.
  intros H. destruct (jsstring_eqb a b) eqn:E; [|reflexivity].
  apply jsstring_eqb_eq in E. contradiction.
Qed.

Lemma includes_In (l : list jsstring) (x : jsstring) :
  includes l x = true <-> In x l.
Proof.
  unfold includes. rewrite existsb_exists. split.
  - intros (y & Hy & E). apply jsstring_eqb_eq in E. now subst.
  - intros H. exists x. split; [exact H|apply jsstring_eqb_refl].
Qed.

Lemma includes_not_In (l : list jsstring) (x : jsstring) :
  includes l x = false <-> ~ In x l.
Proof.
  rewrite <- includes_In. destruct (includes l x); split; congruence.
Qed.

Lemma In_without (l : list jsstring) (f g : jsstring) :
  In g (filter (fun x => negb (jsstring_eqb x f)) l) <-> In g l /\ g <> f.
Proof.
  rewrite filter_In. split; intros [H1 H2]; split; try exact H1.
  - intros ->. now rewrite jsstring_eqb_refl in H2.
  - now rewrite jsstring_eqb_neq.
Qed.

Lemma without_absent (l : list jsstring) (f : jsstring) :
  ~ In f l -> filter (fun x => negb (jsstring_eqb x f)) l = l.
Proof.
  intros H. apply forallb_filter_id, forallb_forall.
  intros x Hx. rewrite jsstring_eqb_neq; [reflexivity|].
  intros ->. contradiction.
Qed.

(** X7.  Clicking a file chip flips whether that file is selected and
    leaves every other file's selection, the query, the run state, the
    displayed result, the history, the outstanding requests and the
    notifications as they were. *)
Theorem X7_toggle_flips_one (w : world) (filename : jsstring) :
  isSelected (toggleFile filename w) filename = negb (isSelected w filename)
  /\ (forall other,
        other <> filename ->
        isSelected (toggleFile filename w) other = isSelected w other)
  /\ query (ui (toggleFile filename w)) = query (ui w)
  /\ isRunning (ui (toggleFile filename w)) = isRunning (ui w)
  /\ result (ui (toggleFile filename w)) = result (ui w)
  /\ history (toggleFile filename w) = history w
  /\ inflight (toggleFile filename w) = inflight w
  /\ toasts (toggleFile filename w) = toasts w.
Proof.
  unfold isSelected, toggleFile. cbn [ui set_ui selectedFiles].
  destruct (includes (selectedFiles (ui w)) filename) eqn:E.
  - split; [|split; [|repeat split]].
    + apply includes_not_In. rewrite In_without. tauto.
    + intros other Ho. apply eq_true_iff_eq.
      rewrite !includes_In, In_without. tauto.
  - split; [|split; [|repeat split]].
    + apply includes_In, in_or_app. right. now left.
    + intros other Ho. apply eq_true_iff_eq.
      rewrite !includes_In, in_app_iff. simpl. intuition congruence.
Qed.

Lemma X7_toggle_flips_one_witness :
  let w := toggleFile (js "a.pdf") (initial []) in
  isSelected (toggleFile (js "b.docx") w) (js "a.pdf") = true.
Proof.
  intros w.
  destruct (X7_toggle_flips_one w (js "b.docx")) as (_ & H & _).
  rewrite H; [reflexivity|discriminate].
Defined.

Lemma selection_kept (e : event) (w : world) :
  (forall f, e <> ToggleFile f) ->
  selectedFiles (ui (step e w)) = selectedFiles (ui w).
Proof.
  intros H. destruct e as [q|f| |key m c|k resp i t|k err|st]; simpl.
  - reflexivity.
  - now destruct (H f).
  - unfold onClick. destruct (button_disabled (ui w)); [reflexivity|].
    unfold handleRun. now destruct (negb (truthy (trim (query (ui w))))).
  - unfold onKeyDown.
    destruct (jsstring_eqb key (js "Enter") && (m || c)); [|reflexivity].
    unfold handleRun. now destruct (negb (truthy (trim (query (ui w))))).
  - destruct (nth_error (inflight w) k) as [r|] eqn:E.
    + now rewrite (settle_fulfilled _ _ _ _ _ _ E).
    + unfold settle. now rewrite E.
  - unfold settle. now destruct (nth_error (inflight w) k).
  - reflexivity.
Qed.

Lemma toggle_NoDup (w : world) (f : jsstring) :
  NoDup (selectedFiles (ui w)) ->
  NoDup (selectedFiles (ui (toggleFile f w))).
Proof.
  intros H. unfold toggleFile. cbn [ui set_ui selectedFiles].
  destruct (includes (selectedFiles (ui w)) f) eqn:E.
  - now apply NoDup_filter.
  - apply includes_not_In in E.
    apply NoDup_rev in H. rewrite <- (rev_involutive (_ ++ [f])).
    apply NoDup_rev. rewrite rev_app_distr. simpl.
    constructor; [|exact H]. now rewrite <- in_rev.
Qed.

Lemma Forall_remove_nth (A : Type) (P : A -> Prop) (k : nat) (l : list A) :
  Forall P l -> Forall P (remove_nth k l).
Proof.
  intros H. revert k. induction H as [|x l Hx Hl IH]; intros k.
  - destruct k; constructor.
  - destruct k as [|k]; simpl; [exact Hl|]. constructor; auto.
Qed.

Lemma handleRun_duplicate_free (w : world) :
  duplicate_free w -> duplicate_free (handleRun w).
Proof.
  intros (H1 & H2 & H3). unfold handleRun.
  destruct (negb (truthy (trim (query (ui w))))); [now repeat split|].
  repeat split; simpl; auto.
  apply Forall_app. split; [exact H2|]. now repeat constructor.
Qed.

Lemma settle_duplicate_free (k : nat) (o : settlement) (i : jsstring)
    (t : Z) (w : world) :
  duplicate_free w -> duplicate_free (settle k o i t w).
Proof.
  intros (H1 & H2 & H3).
  destruct (nth_error (inflight w) k) as [r|] eqn:E;
    [|unfold settle; rewrite E; now repeat split].
  assert (Hr : NoDup (run_files r)).
  { rewrite Forall_forall in H2. apply H2. eapply nth_error_In, E. }
  destruct o as [response|err].
  - rewrite (settle_fulfilled _ _ _ _ _ _ E).
    destruct (History.write_error (store w));
      repeat split; simpl; auto using Forall_remove_nth.
  - rewrite (settle_rejected _ _ _ _ _ _ E).
    repeat split; simpl; auto using Forall_remove_nth.
Qed.

Lemma step_duplicate_free (e : event) (w : world) :
  duplicate_free w -> duplicate_free (step e w).
Proof.
  intros H. destruct e as [q|f| |key m c|k resp i t|k err|st]; simpl.
  - exact H.
  - destruct H as (H1 & H2 & H3). split; [|split; assumption].
    now apply toggle_NoDup.
  - unfold onClick. destruct (button_disabled (ui w)); [exact H|].
    now apply handleRun_duplicate_free.
  - unfold onKeyDown.
    destruct (jsstring_eqb key (js "Enter") && (m || c)); [|exact H].
    now apply handleRun_duplicate_free.
  - now apply settle_duplicate_free.
  - now apply settle_duplicate_free.
  - exact H.
Qed.

(** X8.  No file is ever sent or stored twice: on a page mounted over a
    history whose entries list no file twice, after any sequence of
    events the selection, the [file_ids] of every outstanding request
    and the [files] of every history entry are free of duplicates. *)
Theorem X8_files_without_duplicates
    (h : list History.AnalysisHistoryEntry) (es : list event) :
  Forall (fun e => NoDup (History.files e)) h ->
  duplicate_free (run es (initial h)).
Proof.
  intros Hh.
  assert (H0 : duplicate_free (initial h)).
  { repeat split; simpl; [constructor|constructor|exact Hh]. }
  revert H0. generalize (initial h) as w.
  induction es as [|e es IH]; intros w H; [exact H|].
  simpl. apply IH. now apply step_duplicate_free.
Qed.

(** "a.pdf" is clicked three times before the run: it is sent once. *)
Lemma X8_files_without_duplicates_witness :
  duplicate_free
    (run [Change second_query; ToggleFile (js "a.pdf");
          ToggleFile (js "a.pdf"); ToggleFile (js "a.pdf"); ctrl_enter]
         (initial [])).
Proof.
  apply X8_files_without_duplicates. constructor.
Defined.

(** X9.  Clicking the chip of an unselected file twice restores the page
    exactly; clicking the chip of a selected file twice keeps the other
    files in their order and moves that file to the end. *)
Theorem X9_toggle_twice (w : world) (filename : jsstring) :
  (isSelected w filename = false ->
   toggleFile filename (toggleFile filename w) = w)
  /\ (isSelected w filename = true ->
      selectedFiles (ui (toggleFile filename (toggleFile filename w)))
      = filter (fun f => negb (jsstring_eqb f filename))
               (selectedFiles (ui w)) ++ [filename]).
Proof.
  unfold isSelected. split; intros H.
  - destruct w as [[q sel r res] hist infl ts st]. unfold toggleFile.
    cbn [ui set_ui selectedFiles query isRunning result history inflight
         toasts store] in *.
    rewrite H.
    replace (includes (sel ++ [filename]) filename) with true
      by (symmetry; apply includes_In, in_or_app; right; now left).
    rewrite filter_app, without_absent by now apply includes_not_In.
    simpl. rewrite jsstring_eqb_refl. simpl. now rewrite app_nil_r.
  - unfold toggleFile at 2. cbn [ui set_ui selectedFiles]. rewrite H.
    unfold toggleFile. cbn [ui set_ui selectedFiles].
    replace (includes (filter _ (selectedFiles (ui w))) filename)
      with false; [reflexivity|].
    symmetry. apply includes_not_In. rewrite In_without. tauto.
Qed.

Lemma X9_toggle_twice_witness :
  let w := toggleFile (js "a.pdf") (initial []) in
  toggleFile (js "b.docx") (toggleFile (js "b.docx") w) = w
  /\ selectedFiles
       (ui (toggleFile (js "a.pdf")
              (toggleFile (js "a.pdf") (toggleFile (js "b.docx") w))))
     = [js "b.docx"; js "a.pdf"].
Proof.
  intros w. split.
  - apply (X9_toggle_twice w (js "b.docx")). reflexivity.
  - apply (proj2 (X9_toggle_twice (toggleFile (js "b.docx") w)
                    (js "a.pdf"))).
    reflexivity.
Defined.

Lemma handleRun_when_idle (w : world) :
  inflight w = [] ->
  one_run_at_most (handleRun w) \/ handleRun w = w.
Proof.
  intros H. destruct (blank (query (ui w))) eqn:E.
  - right. now apply handleRun_blank.
  - left. rewrite handleRun_accepts by exact E.
    unfold one_run_at_most. simpl. rewrite H. now eexists.
Qed.

Lemma step_one_run_at_most (e : event) (w : world) :
  from_keyboard e = false ->
  one_run_at_most w -> one_run_at_most (step e w).
Proof.
  intros Hk H. unfold one_run_at_most in *.
  destruct e as [q|f| |key m c|k resp i t|k err|st]; try discriminate;
    simpl.
  - exact H.
  - exact H.
  - unfold onClick, button_disabled.
    destruct (isRunning (ui w)) eqn:R.
    + rewrite orb_true_r. now rewrite R.
    + rewrite orb_false_r.
      destruct (negb (truthy (trim (query (ui w))))) eqn:B;
        [now rewrite R|].
      destruct (handleRun_when_idle w H) as [H' | ->]; [exact H'|].
      now rewrite R.
  - destruct (nth_error (inflight w) k) as [r|] eqn:E;
      [|unfold settle; rewrite E; exact H].
    rewrite (settle_fulfilled _ _ _ _ _ _ E). cbn [ui isRunning inflight].
    destruct (isRunning (ui w)).
    + destruct H as [r' H]. rewrite H in *.
      destruct k as [|[|k]]; simpl in *; try discriminate. reflexivity.
    + rewrite H in E. destruct k; discriminate.
  - destruct (nth_error (inflight w) k) as [r|] eqn:E;
      [|unfold settle; rewrite E; exact H].
    rewrite (settle_rejected _ _ _ _ _ _ E). cbn [ui isRunning inflight].
    destruct (isRunning (ui w)).
    + destruct H as [r' H]. rewrite H in *.
      destruct k as [|[|k]]; simpl in *; try discriminate. reflexivity.
    + rewrite H in E. destruct k; discriminate.
  - exact H.
Qed.

(** X10.  Through the Run button alone runs never overlap: on a page
    that is driven by typing, file chips, clicks on the button and
    responses, but not by the keyboard shortcut, at most one request is
    outstanding at any time, [isRunning] is set exactly while one is, and
    no result is displayed while one is. *)
Theorem X10_button_runs_never_overlap
    (h : list History.AnalysisHistoryEntry) (es : list event) :
  forallb (fun e => negb (from_keyboard e)) es = true ->
  let w := run es (initial h) in
  one_run_at_most w
  /\ (List.length (inflight w) <= 1)%nat
  /\ (isRunning (ui w) = true <-> inflight w <> [])
  /\ (inflight w <> [] -> shows_results (render (ui w)) = None).
Proof.
  intros Hes w.
  assert (H : one_run_at_most w).
  { subst w. assert (H0 : one_run_at_most (initial h)) by reflexivity.
    revert Hes H0. generalize (initial h) as w.
    induction es as [|e es IH]; intros w Hes H; [exact H|].
    simpl in Hes. apply andb_true_iff in Hes as [He Hes].
    simpl. apply IH; [exact Hes|].
    apply step_one_run_at_most; [|exact H].
    now apply negb_true_iff. }
  split; [exact H|].
  unfold one_run_at_most, render in *. simpl.
  destruct (isRunning (ui w)).
  - destruct H as [r ->]. simpl.
    repeat split; auto; discriminate.
  - rewrite H. simpl. repeat split; auto; try discriminate;
      intros E; now destruct E.
Qed.

(** Two clicks in a row: the second finds the button disabled. *)
Lemma X10_button_runs_never_overlap_witness :
  inflight (run [Change second_query; Click; Click] (initial []))
  = [{| run_query := second_query; run_files := [] |}].
Proof.
  destruct (X10_button_runs_never_overlap []
              [Change second_query; Click; Click])
    as ([r Hr] & _); [reflexivity|].
  rewrite Hr. f_equal.
  assert (E : Some r
              = nth_error
                  (inflight (run [Change second_query; Click; Click]
                                 (initial []))) 0)
    by (rewrite Hr; reflexivity).
  injection E as ->. reflexivity.
Defined.

Lemma step_history_grows (e : event) (w : world) :
  exists added new,
    history (step e w) = added ++ history w
    /\ toasts (step e w) = toasts w ++ new
    /\ List.length added = List.length (filter is_success new).
Proof.
  assert (Hsame : forall w', history w' = history w -> toasts w' = toasts w ->
            exists added new,
              history w' = added ++ history w
              /\ toasts w' = toasts w ++ new
              /\ List.length added = List.length (filter is_success new)).
  { intros w' H1 H2. exists [], []. rewrite app_nil_r. auto. }
  assert (Hrun : history (handleRun w) = history w
                 /\ toasts (handleRun w) = toasts w).
  { unfold handleRun.
    destruct (negb (truthy (trim (query (ui w))))); split; reflexivity. }
  destruct e as [q|f| |key m c|k resp i t|k err|st]; simpl.
  - now apply Hsame.
  - now apply Hsame.
  - unfold onClick. destruct (button_disabled (ui w));
      apply Hsame; tauto.
  - unfold onKeyDown.
    destruct (jsstring_eqb key (js "Enter") && (m || c));
      apply Hsame; tauto.
  - destruct (nth_error (inflight w) k) as [r|] eqn:E;
      [|unfold settle; rewrite E; now apply Hsame].
    rewrite (settle_fulfilled _ _ _ _ _ _ E). cbn [history toasts].
    destruct (History.write_error (store w)) as [e|].
    + exists [], [ToastError (error_message e)]. repeat split.
    + exists [entry_of r resp i t],
             [ToastSuccess (js "Analysis complete")].
      repeat split.
  - unfold settle. destruct (nth_error (inflight w) k) as [r|];
      [|now apply Hsame].
    exists [], [ToastError (error_message err)]. repeat split.
  - now apply Hsame.
Qed.

(** X11.  The analysis page only ever adds to the history, at its head:
    after any sequence of events the entries that were there are still
    there, unchanged and in order, below the added ones, and the number
    of added entries is the number of success notifications raised
    meanwhile; error notifications add none. *)
Theorem X11_history_only_grows (w : world) (es : list event) :
  exists added new,
    history (run es w) = added ++ history w
    /\ toasts (run es w) = toasts w ++ new
    /\ List.length added = List.length (filter is_success new).
Proof.
  revert w. induction es as [|e es IH]; intros w.
  - exists [], []. rewrite app_nil_r. auto.
  - simpl. destruct (IH (step e w)) as (a2 & n2 & H1 & H2 & H3).
    destruct (step_history_grows e w) as (a1 & n1 & G1 & G2 & G3).
    exists (a2 ++ a1), (n1 ++ n2).
    rewrite H1, H2, G1, G2, !app_assoc, filter_app, !length_app.
    repeat split. lia.
Qed.

(** X12.  Typing in the textarea, picking a suggestion and clicking file
    chips never start a run and never disturb one: after any sequence of
    such edits the outstanding requests, the history, the notifications,
    [isRunning] and the stored result are what they were, so a displayed
    result stays displayed. *)
Theorem X12_edits_leave_runs_alone (w : world) (es : list event) :
  forallb is_edit es = true ->
  inflight (run es w) = inflight w
  /\ history (run es w) = history w
  /\ toasts (run es w) = toasts w
  /\ shows_loading (render (ui (run es w))) = shows_loading (render (ui w))
  /\ shows_results (render (ui (run es w)))
     = shows_results (render (ui w)).
Proof.
  intros H.
  destruct (edits_preserve es w H) as (H1 & H2 & H3 & H4 & H5).
  unfold render. simpl. rewrite H4, H5. auto.
Qed.

Lemma X12_edits_leave_runs_alone_witness :
  let w := run [Change second_query; ctrl_enter;
                Resolve 0 (response_of "spec") (js "id-1") 1000%Z]
               (initial []) in
  shows_results
    (render (ui (run [Change []; ToggleFile (js "a.pdf")] w)))
  = Some (response_of "spec").
Proof.
  intros w.
  destruct (X12_edits_leave_runs_alone w
              [Change []; ToggleFile (js "a.pdf")]) as (_ & _ & _ & _ & H);
    [reflexivity|].
  rewrite H. reflexivity.
Defined.

End SurfaceFacts.

(** ** [AnalysisPage]: which response is applied *)

Module OverlapFacts.
Import JS Api Controller Surface ControllerFacts SurfaceFacts.

Lemma run_one_run_at_most (es : list event) (w : world) :
  forallb (fun e => negb (from_keyboard e)) es = true ->
  one_run_at_most w -> one_run_at_most (run es w).
Proof.
  revert w. induction es as [|e es IH]; intros w Hes H; [exact H|].
  simpl in Hes. apply andb_true_iff in Hes as [He Hes].
  simpl. apply IH; [exact Hes|].
  apply step_one_run_at_most; [|exact H].
  now apply negb_true_iff.
Qed.

(** C1, as the page has it.  The controller keeps no run identifier:
    the Run button is disabled while a run is in progress, so on a page
    driven by typing, file chips, clicks on the button and responses a
    click while a request is outstanding starts nothing, and a response
    that arrives is the response of the one outstanding request, hence of
    the run submitted last; it is applied: displayed as the result, and
    no request is outstanding afterwards. *)
Theorem C1_button_runs_apply_their_response
    (h : list History.AnalysisHistoryEntry) (es : list event) :
  forallb (fun e => negb (from_keyboard e)) es = true ->
  let w := run es (initial h) in
  (inflight w <> [] -> step Click w = w)
  /\ (forall k r response i t,
        nth_error (inflight w) k = Some r ->
        let w' := step (Resolve k response i t) w in
        inflight w = [r]
        /\ k = 0%nat
        /\ inflight w' = []
        /\ result (ui w') = Some response
        /\ shows_results (render (ui w')) = Some response).
Proof.
  intros Hes w.
  assert (H : one_run_at_most w).
  { subst w. apply run_one_run_at_most; [exact Hes|reflexivity]. }
  unfold one_run_at_most in H. split.
  - intros Hn. simpl. apply onClick_while_running.
    destruct (isRunning (ui w)); [reflexivity|contradiction].
  - intros k r response i t E w'. subst w'. simpl.
    rewrite (settle_fulfilled _ _ _ _ _ _ E).
    cbn [ui result inflight render shows_results isRunning].
    destruct (isRunning (ui w)).
    + destruct H as [r' H]. rewrite H in *.
      destruct k as [|[|k]]; simpl in E; try discriminate.
      injection E as ->. repeat split.
    + rewrite H in E. destruct k; discriminate.
Qed.

(** A second click while the first run is outstanding starts nothing;
    the response that arrives is the first run's and is displayed. *)
Lemma C1_button_runs_apply_their_response_witness :
  let w := run [Change second_query; Click; Click] (initial []) in
  inflight w = [{| run_query := second_query; run_files := [] |}]
  /\ step Click w = w
  /\ shows_results
       (render (ui (step (Resolve 0 (response_of "spec") (js "id-1")
                                  1000%Z) w)))
     = Some (response_of "spec").
Proof.
  intros w.
  destruct (C1_button_runs_apply_their_response []
              [Change second_query; Click; Click]) as (H1 & H2);
    [reflexivity|].
  destruct (H2 0%nat {| run_query := second_query; run_files := [] |}
               (response_of "spec") (js "id-1") 1000%Z)
    as (H3 & _ & _ & _ & H4); [reflexivity|].
  split; [exact H3|]. split; [|exact H4].
  apply H1. discriminate.
Defined.

End OverlapFacts.

(** ** [Sidebar], [MobileNav], [Topbar]: which item is highlighted *)

Module NavigationFacts.
Import JS Navigation SurfaceFacts.

Lemma startsWith_app (p rest : jsstring) : startsWith (p ++ rest) p = true.
Proof.
  induction p as [|c p IH]; [reflexivity|].
  simpl. now rewrite N.eqb_refl, IH.
Qed.

Lemma startsWith_self (p : jsstring) : startsWith p p = true.
Proof. rewrite <- (app_nil_r p) at 1. apply startsWith_app. Qed.

Lemma startsWith_both (s p1 p2 : jsstring) :
  startsWith s p1 = true -> startsWith s p2 = true ->
  startsWith p1 p2 = true \/ startsWith p2 p1 = true.
Proof.
  revert p1 p2. induction s as [|d s IH]; intros p1 p2 H1 H2.
  - destruct p1; [|discriminate]. right. now destruct p2.
  - destruct p1 as [|c1 p1]; [right; now destruct p2|].
    destruct p2 as [|c2 p2]; [now left|].
    simpl in H1, H2.
    apply andb_true_iff in H1 as [E1 H1].
    apply andb_true_iff in H2 as [E2 H2].
    apply N.eqb_eq in E1, E2. subst c1 c2.
    simpl. rewrite N.eqb_refl. simpl. now apply IH.
Qed.

Lemma isActive_startsWith (pathname href : jsstring) :
  isActive pathname href = true -> startsWith pathname href = true.
Proof.
  unfold isActive. intros H. apply orb_true_iff in H as [H|H].
  - apply jsstring_eqb_eq in H. subst. apply startsWith_self.
  - now apply andb_true_iff in H as [_ H].
Qed.

(** X13.  An item other than the dashboard's is highlighted on its own
    page and on everything below it (whatever follows its [href] in the
    path, a history entry's id for instance), while the dashboard item is
    highlighted on "/dashboard" only. *)
Theorem X13_active_on_subpaths :
  (forall href rest,
      href <> js "/dashboard" -> isActive (href ++ rest) href = true)
  /\ (forall pathname,
        isActive pathname (js "/dashboard") = true
        <-> pathname = js "/dashboard")
  /\ (forall pathname href,
        isActive pathname href = true ->
        exists rest, pathname = href ++ rest).
Proof.
  split; [|split].
  - intros href rest H. unfold isActive.
    rewrite (jsstring_eqb_neq _ _ H), startsWith_app.
    apply orb_true_r.
  - intros pathname. unfold isActive.
    rewrite (jsstring_eqb_refl (js "/dashboard")). simpl.
    rewrite orb_false_r. apply jsstring_eqb_eq.
  - intros pathname href H. apply isActive_startsWith in H.
    revert href H. induction pathname as [|d s IH]; intros [|c p] H.
    + now exists [].
    + discriminate.
    + now exists (d :: s).
    + simpl in H. apply andb_true_iff in H as [E H].
      apply N.eqb_eq in E. subst d.
      destruct (IH p H) as [rest ->]. now exists rest.
Qed.

(** The page of one history entry highlights History. *)
Lemma X13_active_on_subpaths_witness :
  isActive (js "/history/k3x9") (js "/history") = true
  /\ exists rest, js "/history/k3x9" = js "/history" ++ rest.
Proof.
  destruct X13_active_on_subpaths as (H1 & _ & H3).
  assert (H : isActive (js "/history/k3x9") (js "/history") = true)
    by (apply (H1 (js "/history") (js "/k3x9")); discriminate).
  split; [exact H|]. apply H3. exact H.
Defined.

Lemma active_pages_equal (pathname h1 h2 : jsstring) :
  isActive pathname h1 = true -> isActive pathname h2 = true ->
  In h1 PAGES -> In h2 PAGES -> h1 = h2.
Proof.
  intros A1 A2.
  assert (H : startsWith h1 h2 = true \/ startsWith h2 h1 = true).
  { apply startsWith_both with pathname; now apply isActive_startsWith. }
  intros I1 I2. unfold PAGES in I1, I2. simpl in I1, I2.
  repeat (destruct I1 as [<-|I1]; [|]);
    try contradiction;
    repeat (destruct I2 as [<-|I2]; [|]);
    try contradiction; try reflexivity;
    destruct H as [H|H]; vm_compute in H; discriminate.
Qed.

(** X14.  Two items can be highlighted together only if the [href] of
    one begins with the [href] of the other; so of the five pages of the
    application never two are highlighted at once, whatever the path. *)
Theorem X14_one_highlight (pathname h1 h2 : jsstring) :
  isActive pathname h1 = true -> isActive pathname h2 = true ->
  (startsWith h1 h2 = true \/ startsWith h2 h1 = true)
  /\ (In h1 PAGES -> In h2 PAGES -> h1 = h2).
Proof.
  intros A1 A2.
  assert (H : startsWith h1 h2 = true \/ startsWith h2 h1 = true).
  { apply startsWith_both with pathname; now apply isActive_startsWith. }
  split; [exact H|].
  now apply active_pages_equal with pathname.
Qed.

(** A path below "/history" with two items it begins with. *)
Lemma X14_one_highlight_witness :
  startsWith (js "/history") (js "/hist") = true
  \/ startsWith (js "/hist") (js "/history") = true.
Proof.
  apply (X14_one_highlight (js "/history/k3x9") (js "/history")
           (js "/hist")); reflexivity.
Defined.

(** X15.  The top bar always has a title: the page's name on the five
    pages and "Squash" on every other path; in particular on the page of
    any single history entry. *)
Theorem X15_title_fallback :
  (forall pathname, title pathname <> [])
  /\ (forall pathname,
        ~ In pathname PAGES -> title pathname = js "Squash")
  /\ (forall id, title (js "/history/" ++ id) = js "Squash")
  /\ map title PAGES
     = [js "Dashboard"; js "Analysis"; js "Documents"; js "Integrations";
        js "History"].
Proof.
  assert (Hout : forall pathname,
             ~ In pathname PAGES -> title pathname = js "Squash").
  { intros pathname H. unfold title, PAGE_TITLES, lookup.
    rewrite !jsstring_eqb_neq; [reflexivity| | | | |];
      intros ->; apply H; simpl; tauto. }
  split; [|split; [exact Hout|split; [|reflexivity]]].
  - intros pathname. unfold title, PAGE_TITLES, lookup.
    repeat (destruct (jsstring_eqb pathname _); [discriminate|]).
    discriminate.
  - intros id. apply Hout. unfold PAGES.
    intros H. simpl in H.
    repeat (destruct H as [H|H]; [vm_compute in H; discriminate H|]).
    exact H.
Qed.

Lemma X15_title_fallback_witness : title (js "/settings") = js "Squash".
Proof.
  apply (proj1 (proj2 X15_title_fallback)).
  simpl. intuition discriminate.
Defined.

End NavigationFacts.

(** ** [IntegrationGrid], [IntegrationCard] *)

Module IntegrationsFacts.
Import JS Integrations SurfaceFacts.

Lemma eqb_sym (a b : jsstring) : jsstring_eqb a b = jsstring_eqb b a.
Proof.
  apply eq_true_iff_eq. rewrite !jsstring_eqb_eq. split; congruence.
Qed.

Lemma lookup_push (acc : groups) (k : jsstring) (x : Integration)
    (t : jsstring) :
  lookup (push acc k x) t
  = if jsstring_eqb t k
    then option_map (fun g => g ++ [x]) (lookup acc t)
    else lookup acc t.
Proof.
  induction acc as [|[k' v] acc IH]; simpl.
  - now destruct (jsstring_eqb t k).
  - destruct (jsstring_eqb k k') eqn:E; simpl.
    + apply jsstring_eqb_eq in E. subst k'.
      now destruct (jsstring_eqb t k).
    + rewrite IH. destruct (jsstring_eqb t k') eqn:E'; [|reflexivity].
      apply jsstring_eqb_eq in E'. subst k'.
      now rewrite eqb_sym, E.
Qed.

Lemma lookup_snoc (acc : groups) (k t : jsstring) :
  lookup (acc ++ [(k, [])]) t
  = match lookup acc t with
    | Some g => Some g
    | None => if jsstring_eqb t k then Some [] else None
    end.
Proof.
  induction acc as [|[k' v] acc IH]; simpl; [reflexivity|].
  now destruct (jsstring_eqb t k').
Qed.

Lemma lookup_reducer (acc : groups) (x : Integration) (t : jsstring) :
  lookup (reducer acc x) t
  = if of_type t x then Some ((lookup acc t ?? []) ++ [x])
    else lookup acc t.
Proof.
  unfold reducer, of_type. rewrite lookup_push, (eqb_sym t (type x)).
  destruct (jsstring_eqb (type x) t) eqn:E.
  - apply jsstring_eqb_eq in E. subst t.
    destruct (lookup acc (type x)) as [g|] eqn:L; simpl.
    + now rewrite L.
    + now rewrite lookup_snoc, L, jsstring_eqb_refl.
  - destruct (lookup acc (type x)) as [g|] eqn:L; [reflexivity|].
    rewrite lookup_snoc, (eqb_sym t (type x)), E.
    now destruct (lookup acc t).
Qed.

Lemma lookup_fold (l : list Integration) (acc : groups) (t : jsstring) :
  lookup (fold_left reducer l acc) t
  = match filter (of_type t) l with
    | [] => lookup acc t
    | g => Some ((lookup acc t ?? []) ++ g)
    end.
Proof.
  revert acc. induction l as [|x l IH]; intros acc; [reflexivity|].
  cbn [fold_left filter]. rewrite IH, lookup_reducer.
  destruct (of_type t x); [|reflexivity].
  destruct (filter (of_type t) l) as [|y g]; [reflexivity|].
  cbn [nullish]. now rewrite <- app_assoc.
Qed.

Lemma keys_push (acc : groups) (k : jsstring) (x : Integration) :
  map fst (push acc k x) = map fst acc.
Proof.
  induction acc as [|[k' v] acc IH]; simpl; [reflexivity|].
  destruct (jsstring_eqb k k'); simpl; congruence.
Qed.

Lemma lookup_None (acc : groups) (k : jsstring) :
  lookup acc k = None <-> ~ In k (map fst acc).
Proof.
  induction acc as [|[k' v] acc IH]; simpl; [tauto|].
  destruct (jsstring_eqb k k') eqn:E.
  - apply jsstring_eqb_eq in E. subst. split; [discriminate|tauto].
  - rewrite IH. split; [|tauto].
    intros H [H'|H']; [|tauto]. subst.
    now rewrite jsstring_eqb_refl in E.
Qed.

Lemma In_lookup (acc : groups) (k : jsstring) (g : list Integration) :
  NoDup (map fst acc) -> In (k, g) acc -> lookup acc k = Some g.
Proof.
  induction acc as [|[k' v] acc IH]; simpl; [tauto|].
  intros Hnd [H|H].
  - injection H as -> ->. now rewrite jsstring_eqb_refl.
  - inversion Hnd as [|? ? Hk Hnd']; subst.
    destruct (jsstring_eqb k k') eqn:E; [|now apply IH].
    apply jsstring_eqb_eq in E. subst. exfalso. apply Hk.
    apply in_map_iff. now exists (k', g).
Qed.

Lemma keys_reducer (acc : groups) (x : Integration) :
  NoDup (map fst acc) -> NoDup (map fst (reducer acc x)).
Proof.
  intros H. unfold reducer. rewrite keys_push.
  destruct (lookup acc (type x)) eqn:L; [exact H|].
  apply lookup_None in L. rewrite map_app. simpl.
  apply NoDup_rev in H. rewrite <- (rev_involutive (_ ++ _)).
  apply NoDup_rev. rewrite rev_app_distr. simpl.
  constructor; [|exact H]. now rewrite <- in_rev.
Qed.

Lemma keys_fold (l : list Integration) (acc : groups) :
  NoDup (map fst acc) -> NoDup (map fst (fold_left reducer l acc)).
Proof.
  revert acc. induction l as [|x l IH]; intros acc H; [exact H|].
  simpl. now apply IH, keys_reducer.
Qed.

Lemma concat_push (acc : groups) (k : jsstring) (x : Integration) :
  In k (map fst acc) ->
  Permutation (List.concat (map snd (push acc k x)))
              (x :: List.concat (map snd acc)).
Proof.
  induction acc as [|[k' v] acc IH]; simpl; [tauto|].
  intros H. destruct (jsstring_eqb k k') eqn:E; simpl.
  - rewrite <- app_assoc. simpl.
    apply Permutation_sym, Permutation_middle.
  - destruct H as [H|H];
      [subst; now rewrite jsstring_eqb_refl in E|].
    eapply Permutation_trans;
      [apply Permutation_app_head, IH, H|].
    apply Permutation_sym, Permutation_middle.
Qed.

Lemma concat_reducer (acc : groups) (x : Integration) :
  Permutation (List.concat (map snd (reducer acc x)))
              (x :: List.concat (map snd acc)).
Proof.
  unfold reducer. destruct (lookup acc (type x)) eqn:L.
  - apply concat_push. apply Decidable.not_not.
    + unfold Decidable.decidable.
      destruct (in_dec (list_eq_dec N.eq_dec) (type x) (map fst acc));
        tauto.
    + intros H. apply lookup_None in H. congruence.
  - eapply Permutation_trans.
    + apply concat_push. rewrite map_app. apply in_or_app.
      right. now left.
    + rewrite map_app, concat_app. simpl. now rewrite app_nil_r.
Qed.

Lemma concat_fold (l : list Integration) (acc : groups) :
  Permutation (List.concat (map snd (fold_left reducer l acc)))
              (List.concat (map snd acc) ++ l).
Proof.
  revert acc. induction l as [|x l IH]; intros acc; simpl.
  - now rewrite app_nil_r.
  - eapply Permutation_trans; [apply IH|].
    eapply Permutation_trans;
      [apply Permutation_app_tail, concat_reducer|].
    simpl. apply Permutation_middle.
Qed.

Lemma lookup_grouped (l : list Integration) (t : jsstring) :
  lookup (grouped l) t
  = match filter (of_type t) l with
    | [] => None
    | g => Some g
    end.
Proof.
  unfold grouped. rewrite lookup_fold. simpl.
  now destruct (filter (of_type t) l).
Qed.

(** X16.  The grid groups by type: the group listed under a type holds
    exactly the integrations of that type, in the order of the catalogue,
    and a type without integrations has no group. *)
Theorem X16_groups_by_type (INTEGRATIONS : list Integration)
    (t : jsstring) :
  lookup (grouped INTEGRATIONS) t
  = match filter (of_type t) INTEGRATIONS with
    | [] => None
    | g => Some g
    end.
Proof. apply lookup_grouped. Qed.

(** X17.  Every integration is shown exactly once: the groups have
    pairwise different types, none is empty, each is the catalogue
    filtered by its type, and together they hold the catalogue's
    integrations, each as often as the catalogue does. *)
Theorem X17_each_integration_once (INTEGRATIONS : list Integration) :
  NoDup (map fst (grouped INTEGRATIONS))
  /\ (forall t g,
        In (t, g) (grouped INTEGRATIONS) ->
        g = filter (of_type t) INTEGRATIONS /\ g <> [])
  /\ Permutation (List.concat (map snd (grouped INTEGRATIONS)))
                 INTEGRATIONS.
Proof.
  assert (Hk : NoDup (map fst (grouped INTEGRATIONS)))
    by (apply keys_fold; constructor).
  split; [exact Hk|split].
  - intros t g H. apply (In_lookup _ _ _ Hk) in H.
    rewrite lookup_grouped in H.
    destruct (filter (of_type t) INTEGRATIONS); [discriminate|].
    injection H as <-. split; [reflexivity|discriminate].
  - apply (concat_fold INTEGRATIONS []).
Qed.

(** The analytics group of the sample catalogue. *)
Lemma X17_each_integration_once_witness :
  [integration "mixpanel" "analytics"; integration "posthog" "analytics"]
  = filter (of_type (js "analytics")) sample_catalogue.
Proof.
  destruct (X17_each_integration_once sample_catalogue) as (_ & H & _).
  apply (H (js "analytics")). simpl. now left.
Defined.

Lemma label_cons (c : N) (cap : jsstring) :
  capability_label (c :: cap)
  = (if N.eqb c 95 then 32%N else c) :: capability_label cap.
Proof. reflexivity. Qed.

(** X18.  A capability's label has the length of the capability's name
    and no underscore; a name without underscore is its own label, and
    labelling a label changes nothing. *)
Theorem X18_capability_label (cap : jsstring) :
  List.length (capability_label cap) = List.length cap
  /\ ~ In 95%N (capability_label cap)
  /\ (~ In 95%N cap -> capability_label cap = cap)
  /\ capability_label (capability_label cap) = capability_label cap.
Proof.
  split; [apply length_map|].
  induction cap as [|c cap (IH1 & IH2 & IH3)];
    [simpl; repeat split; tauto|].
  rewrite label_cons.
  destruct (N.eqb c 95) eqn:E.
  - apply N.eqb_eq in E. subst c. split; [|split].
    + intros [H|H]; [discriminate|contradiction].
    + intros H. exfalso. apply H. now left.
    + rewrite label_cons. simpl. now rewrite IH3.
  - split; [|split].
    + apply N.eqb_neq in E. intros [H|H]; [congruence|contradiction].
    + intros H. f_equal. apply IH2. intros H'. apply H. now right.
    + rewrite label_cons, E. now rewrite IH3.
Qed.

Lemma X18_capability_label_witness :
  capability_label (js "tickets") = js "tickets".
Proof.
  destruct (X18_capability_label (js "tickets")) as (_ & _ & H & _).
  apply H. simpl. intuition discriminate.
Defined.

End IntegrationsFacts.

(** ** [RecentAnalyses] *)

Module DashboardFacts.
Import Dashboard.

(** X19.  The dashboard card lists the first five entries of the history
    in their order (all of them when there are fewer), and shows its
    "No analyses yet" text exactly when the history is empty. *)
Theorem X19_recent_analyses (history : list History.AnalysisHistoryEntry) :
  List.length (recent history) = Nat.min 5 (List.length history)
  /\ recent history ++ skipn 5 history = history
  /\ ((List.length history <= 5)%nat -> recent history = history)
  /\ (shows_empty_state history = true <-> history = []).
Proof.
  unfold shows_empty_state, recent.
  split; [apply length_firstn|].
  split; [apply firstn_skipn|].
  split; [apply firstn_all2|].
  rewrite Nat.eqb_eq, length_firstn. split.
  - intros H. destruct history; [reflexivity|simpl in H; lia].
  - now intros ->.
Qed.

Lemma X19_recent_analyses_witness :
  recent [Controller.entry_of
            {| Controller.run_query := Controller.second_query;
               Controller.run_files := [] |}
            (Controller.response_of "spec") [] 0%Z]
  = [Controller.entry_of
       {| Controller.run_query := Controller.second_query;
          Controller.run_files := [] |}
       (Controller.response_of "spec") [] 0%Z].
Proof.
  destruct (X19_recent_analyses
              [Controller.entry_of
                 {| Controller.run_query := Controller.second_query;
                    Controller.run_files := [] |}
                 (Controller.response_of "spec") [] 0%Z])
    as (_ & _ & H & _).
  apply H. simpl. lia.
Defined.

End DashboardFacts.

(** ** [OpportunitiesTab]: the header buttons *)

Module SortStateFacts.
Import Ranking.

Lemma SortField_eqb_eq (a b : SortField) :
  SortField_eqb a b = true <-> a = b.
Proof. destruct a, b; simpl; split; congruence. Qed.

Lemma toggle_current (s : SortState) :
  toggleSort (sortField s) s
  = {| sortField := sortField s; sortAsc := negb (sortAsc s) |}.
Proof.
  unfold toggleSort.
  now rewrite (proj2 (SortField_eqb_eq _ _) eq_refl).
Qed.

Lemma toggle_other (field : SortField) (s : SortState) :
  sortField s <> field ->
  toggleSort field s = {| sortField := field; sortAsc := false |}.
Proof.
  intros H. unfold toggleSort.
  destruct (SortField_eqb (sortField s) field) eqn:E; [|reflexivity].
  apply SortField_eqb_eq in E. contradiction.
Qed.

Lemma clicks_on_current (n : nat) (s : SortState) :
  Nat.iter n (toggleSort (sortField s)) s
  = {| sortField := sortField s;
       sortAsc := xorb (sortAsc s) (Nat.odd n) |}.
Proof.
  induction n as [|n IH].
  - simpl. rewrite xorb_false_r. now destruct s.
  - rewrite Nat.iter_succ, IH.
    change (toggleSort (sortField s) ?x)
      with (toggleSort (sortField {| sortField := sortField s;
                                     sortAsc := xorb (sortAsc s)
                                                     (Nat.odd n) |})
                       {| sortField := sortField s;
                          sortAsc := xorb (sortAsc s) (Nat.odd n) |}).
    rewrite toggle_current. cbn [sortField sortAsc].
    rewrite Nat.odd_succ, <- Nat.negb_odd.
    now destruct (sortAsc s), (Nat.odd n).
Qed.

(** X20.  The header buttons: after a click the table is sorted by the
    clicked column; the first click on a column that was not the sort
    column sorts descending whatever the direction was, and of n + 1
    clicks in a row on such a column it is the parity that decides, an
    odd number leaving it descending and an even number ascending;
    clicking the current sort column n times flips the direction if n is
    odd and restores it if n is even. *)
Theorem X20_header_clicks (field : SortField) (s : SortState) (n : nat) :
  sortField (toggleSort field s) = field
  /\ (sortField s <> field ->
      Nat.iter (S n) (toggleSort field) s
      = {| sortField := field; sortAsc := Nat.odd n |})
  /\ Nat.iter n (toggleSort (sortField s)) s
     = {| sortField := sortField s;
          sortAsc := xorb (sortAsc s) (Nat.odd n) |}.
Proof.
  split; [|split].
  - unfold toggleSort.
    destruct (SortField_eqb (sortField s) field) eqn:E; [|reflexivity].
    now apply SortField_eqb_eq in E.
  - intros H. rewrite Nat.iter_succ_r, (toggle_other field s H).
    apply (clicks_on_current n {| sortField := field; sortAsc := false |}).
  - apply clicks_on_current.
Qed.

(** From the initial view, two clicks on "Confidence": ascending. *)
Lemma X20_header_clicks_witness :
  toggleSort SortConfidence (toggleSort SortConfidence initial)
  = by_confidence true.
Proof.
  destruct (X20_header_clicks SortConfidence initial 1) as (_ & H & _).
  apply H. discriminate.
Defined.

End SortStateFacts.

(** ** [CommandPalette] *)

Module PaletteFacts.
Import JS Navigation Palette SurfaceFacts NavigationFacts.

(** X21.  Choosing one of the five pages in the palette closes the
    dialog and moves to that page, where of the five navigation items
    exactly the chosen one is highlighted and the top bar carries a title
    other than the fallback; and pressing Ctrl+K (or Cmd+K) twice leaves
    the palette as it was, while any key press without either modifier
    does nothing. *)
Theorem X21_palette (s : state) :
  (forall href,
      In href PAGES ->
      open (navigate href s) = false
      /\ pathname (navigate href s) = href
      /\ (forall h, In h PAGES ->
            (isActive (pathname (navigate href s)) h = true <-> h = href))
      /\ title (pathname (navigate href s)) <> js "Squash")
  /\ (forall metaKey ctrlKey,
        down (js "k") metaKey ctrlKey (down (js "k") metaKey ctrlKey s) = s)
  /\ (forall key, down key false false s = s).
Proof.
  split; [|split].
  - intros href Hin. cbn [navigate open pathname].
    split; [reflexivity|]. split; [reflexivity|]. split.
    + intros h Hh. split.
      * intros A. apply (active_pages_equal href); auto.
        unfold isActive. now rewrite jsstring_eqb_refl.
      * intros ->. unfold isActive. now rewrite jsstring_eqb_refl.
    + unfold PAGES in Hin. simpl in Hin.
      repeat (destruct Hin as [<-|Hin]; [vm_compute; discriminate|]).
      contradiction.
  - intros m c. unfold down. rewrite jsstring_eqb_refl.
    destruct s as [o p].
    destruct m, c; cbn; rewrite ?negb_involutive; reflexivity.
  - intros key. unfold down. now rewrite andb_false_r.
Qed.

Lemma X21_palette_witness :
  isActive (pathname (navigate (js "/documents")
                               {| open := true; pathname := js "/history" |}))
           (js "/documents") = true.
Proof.
  destruct (X21_palette {| open := true; pathname := js "/history" |})
    as (H & _).
  destruct (H (js "/documents")) as (_ & _ & H' & _);
    [simpl; tauto|].
  apply H'; [simpl; tauto|reflexivity].
Defined.

End PaletteFacts.

(** ** [AnalysisPage]: what gets sent and stored *)

Module QueryFacts.
Import JS Api Controller Surface ControllerFacts SurfaceFacts.

Lemma handleRun_nonblank (w : world) :
  nonblank_queries w -> nonblank_queries (handleRun w).
Proof.
  intros (H1 & H2). destruct (blank (query (ui w))) eqn:E.
  - rewrite handleRun_blank by exact E. now split.
  - rewrite handleRun_accepts by exact E. split; simpl; [|exact H2].
    apply Forall_app. split; [exact H1|]. now repeat constructor.
Qed.

Lemma settle_nonblank (k : nat) (o : settlement) (i : jsstring) (t : Z)
    (w : world) :
  nonblank_queries w -> nonblank_queries (settle k o i t w).
Proof.
  intros (H1 & H2).
  destruct (nth_error (inflight w) k) as [r|] eqn:E;
    [|unfold settle; rewrite E; now split].
  assert (Hr : blank (run_query r) = false).
  { rewrite Forall_forall in H1. apply H1. eapply nth_error_In, E. }
  destruct o as [response|err].
  - rewrite (settle_fulfilled _ _ _ _ _ _ E).
    destruct (History.write_error (store w));
      split; simpl; auto using Forall_remove_nth.
  - rewrite (settle_rejected _ _ _ _ _ _ E).
    split; simpl; auto using Forall_remove_nth.
Qed.

Lemma step_nonblank (e : event) (w : world) :
  nonblank_queries w -> nonblank_queries (step e w).
Proof.
  intros H. destruct e as [q|f| |key m c|k resp i t|k err|st]; simpl.
  - exact H.
  - exact H.
  - unfold onClick. destruct (button_disabled (ui w)); [exact H|].
    now apply handleRun_nonblank.
  - unfold onKeyDown.
    destruct (jsstring_eqb key (js "Enter") && (m || c)); [|exact H].
    now apply handleRun_nonblank.
  - now apply settle_nonblank.
  - now apply settle_nonblank.
  - exact H.
Qed.

(** X22.  No blank query is ever sent or stored: on a page mounted over
    a history without blank queries, after any sequence of events, the
    keyboard shortcut included, every outstanding request and every
    history entry carries a query that is neither empty nor
    whitespace-only. *)
Theorem X22_no_blank_query_recorded
    (h : list History.AnalysisHistoryEntry) (es : list event) :
  Forall (fun e => blank (History.query e) = false) h ->
  nonblank_queries (run es (initial h)).
Proof.
  intros Hh.
  assert (H0 : nonblank_queries (initial h))
    by (split; simpl; [constructor|exact Hh]).
  revert H0. generalize (initial h) as w.
  induction es as [|e es IH]; intros w H; [exact H|].
  simpl. apply IH. now apply step_nonblank.
Qed.

(** Spaces are submitted, then a real query; only the second is sent. *)
Lemma X22_no_blank_query_recorded_witness :
  nonblank_queries
    (run [Change (js "   "); ctrl_enter; Change second_query; ctrl_enter]
         (initial [])).
Proof.
  apply X22_no_blank_query_recorded. constructor.
Defined.

End QueryFacts.
